(** * Adaptive Signal Engine of [app/app.py] (embedded in [ci_build.py])

    The dashboard script loads a price table, picks indicator windows from
    the number of rows, computes the indicator columns, and classifies the
    last row into a volatility regime, a trend bias and a momentum phrase.

    Numbers of the script are Python floats.  They are modelled as exact
    rationals ([Q]) extended with the not-a-number value that pandas uses
    for a missing entry; every comparison with not-a-number is false, as
    in IEEE 754.  A decimal literal is the rational it denotes, and
    rounding is left out.  Python integers are [Z].  The cells of the
    price table are numbers; a missing entry only arises in the computed
    columns. *)

From Stdlib Require Import ZArith QArith String Bool List Lia Lqa.
Import ListNotations.

Local Open Scope string_scope.

(** ** Floating values: a rational or NaN *)

Module Float.

Inductive fval : Type :=
| Num (q : Q)
| NaN.

Definition is_num (v : fval) : bool :=
  match v with Num _ => true | NaN => false end.

Definition Qltb (x y : Q) : bool :=
  match (x ?= y)%Q with Lt => true | _ => false end.

Definition Qeqb (x y : Q) : bool :=
  match (x ?= y)%Q with Eq => true | _ => false end.

(** [a < b]; false as soon as one side is NaN. *)
Definition flt (a b : fval) : bool :=
  match a, b with
  | Num x, Num y => Qltb x y
  | _, _ => false
  end.

(** [a > b]; false as soon as one side is NaN. *)
Definition fgt (a b : fval) : bool := flt b a.

(** [a == b]; false as soon as one side is NaN. *)
Definition feq (a b : fval) : bool :=
  match a, b with
  | Num x, Num y => Qeqb x y
  | _, _ => false
  end.

Definition fneg (a : fval) : fval :=
  match a with Num x => Num (- x) | NaN => NaN end.

Definition fsub (a b : fval) : fval :=
  match a, b with
  | Num x, Num y => Num (x - y)
  | _, _ => NaN
  end.

(** Division.  A zero divisor gives a non-finite float (an infinity or
    NaN); the model keeps a single undefined value for these.  Price bars
    have positive closes, so the returns column never divides by zero. *)
Definition fdiv (a b : fval) : fval :=
  match a, b with
  | Num x, Num y => if Qeqb y 0 then NaN else Num (x / y)
  | _, _ => NaN
  end.

End Float.
Import Float.

(** ** Adaptive indicator windows (lines 61-69) *)

Record WindowConfig : Type := mkWindows {
  sma_short : Z;
  sma_long : Z;
  ema_win : Z;
  rsi_win : Z;
  vol_win : Z;
  mode : string
}.

Definition selectWindows (data_len : Z) : WindowConfig :=
  if (data_len >=? 100)%Z then mkWindows 20 50 20 14 20 "Production"
  else if (data_len >=? 60)%Z then mkWindows 14 30 14 10 14 "Reduced History"
  else mkWindows 3 5 3 3 3 "Demo".

(** The mode labels the script prints, read as the three preset tiers. *)
Inductive Mode : Type := Production | ReducedHistory | Demo.

Definition mode_of_label (s : string) : option Mode :=
  if String.eqb s "Production" then Some Production
  else if String.eqb s "Reduced History" then Some ReducedHistory
  else if String.eqb s "Demo" then Some Demo
  else None.

Definition windows_of (c : WindowConfig) : list Z :=
  [sma_short c; sma_long c; ema_win c; rsi_win c; vol_win c].

(** ** Classification of the last row (lines 84-89, 170, 183) *)

Definition vol_regime (latest_vol : fval) : string :=
  if flt latest_vol (Num 0.01) then "Low"
  else if flt latest_vol (Num 0.025) then "Medium"
  else "High".

Definition trend_bias (ema_last sma_short_last : fval) : string :=
  if fgt ema_last sma_short_last then "Bullish" else "Bearish".

Definition momentum_phrase (rsi_val : fval) : string :=
  if fgt rsi_val (Num 70) then "overbought conditions"
  else if flt rsi_val (Num 30) then "oversold conditions"
  else "balanced participation".

Definition regime_phrase (vol_regime : string) : string :=
  if String.eqb vol_regime "Low" then "stable conditions with controlled risk"
  else if String.eqb vol_regime "High" then "heightened uncertainty requiring caution"
  else "moderate risk with selective opportunities".

(** The three momentum states, named after the phrase the narrative shows. *)
Inductive MomentumState : Type := Overbought | Oversold | Neutral.

Definition momentum_state_of_phrase (s : string) : option MomentumState :=
  if String.eqb s "overbought conditions" then Some Overbought
  else if String.eqb s "oversold conditions" then Some Oversold
  else if String.eqb s "balanced participation" then Some Neutral
  else None.

(** ** The pandas operations the script uses *)

Module Pandas.

(** Exceptions the script can raise; [inl] is a raised exception. *)
Inductive exn : Type := IndexError.

Definition result (A : Type) : Type := (exn + A)%type.

Definition ret {A : Type} (x : A) : result A := inr x.

Definition bind {A B : Type} (c : result A) (k : A -> result B) : result B :=
  match c with
  | inl e => inl e
  | inr x => k x
  end.

(** [s.iloc[-1]]: the last entry; an empty series raises [IndexError]. *)
Fixpoint iloc_last {A : Type} (s : list A) : result A :=
  match s with
  | [] => inl IndexError
  | x :: t =>
      match t with
      | [] => inr x
      | _ :: _ => iloc_last t
      end
  end.

(** [s.pct_change()] is [s / s.shift(1) - 1]: every entry against the one
    before it, the first entry against a missing one. *)
Fixpoint pct_change_from (prev : fval) (s : list Q) : list fval :=
  match s with
  | [] => []
  | x :: t => fsub (fdiv (Num x) prev) (Num 1) :: pct_change_from (Num x) t
  end.

Definition pct_change (s : list Q) : list fval := pct_change_from NaN s.

(** [s.diff(1)] is [s - s.shift(1)]. *)
Fixpoint diff_from (prev : fval) (s : list Q) : list fval :=
  match s with
  | [] => []
  | x :: t => fsub (Num x) prev :: diff_from (Num x) t
  end.

Definition diff (s : list Q) : list fval := diff_from NaN s.

(** The trailing window of [s.rolling(w)] at position [i]: the entries at
    positions [i-w+1 .. i], cut at the start of the series. *)
Definition window_at {A : Type} (w : nat) (s : list A) (i : nat) : list A :=
  skipn (S i - w) (firstn (S i) s).

Definition rolling {A B : Type} (w : nat) (f : list A -> B) (s : list A)
  : list B :=
  map (fun i => f (window_at w s i)) (seq 0 (length s)).

(** The observations of a window are its entries that are not NaN. *)
Fixpoint observations (win : list fval) : list Q :=
  match win with
  | [] => []
  | Num q :: t => q :: observations t
  | NaN :: t => observations t
  end.

Definition Qsum (l : list Q) : Q := fold_right Qplus 0%Q l.

Definition Qmean (obs : list Q) : Q :=
  (Qsum obs / inject_Z (Z.of_nat (length obs)))%Q.

(** [.mean()] of a window: NaN below [min_periods] observations, and NaN
    for a window without any observation. *)
Definition mean (min_periods : nat) (win : list fval) : fval :=
  let obs := observations win in
  if (length obs <? min_periods)%nat then NaN
  else if (length obs =? 0)%nat then NaN
  else Num (Qmean obs).

(** The floating square root is not a rational operation; the development
    is parametric in it. *)
Class Sqrt : Type := { fsqrt : Q -> Q }.

(** [.std()] of a window, with the default [ddof=1]: NaN below
    [min_periods] observations; with a single observation the divisor
    [n - ddof] is zero and the result is NaN. *)
Definition std `{Sqrt} (min_periods : nat) (win : list fval) : fval :=
  let obs := observations win in
  let n := length obs in
  if (n <? min_periods)%nat then NaN
  else if (n <=? 1)%nat then NaN
  else
    let m := Qmean obs in
    let ss := Qsum (map (fun x => (x - m) * (x - m))%Q obs) in
    Num (fsqrt (ss / inject_Z (Z.of_nat (n - 1)))).

(** [s.ewm(alpha=a, adjust=False).mean()] on a series without NaN:
    [y0 = x0] and [y(t) = (1-a) y(t-1) + a x(t)]. *)
Fixpoint ewm_from (alpha prev : Q) (s : list Q) : list Q :=
  match s with
  | [] => []
  | x :: t =>
      let y := ((1 - alpha) * prev + alpha * x)%Q in
      y :: ewm_from alpha y t
  end.

Definition ewm_mean (alpha : Q) (s : list Q) : list Q :=
  match s with
  | [] => []
  | x :: t => x :: ewm_from alpha x t
  end.

(** [s.fillna(method="ffill")] then [.fillna(value)]. *)
Fixpoint ffill_from (prev : fval) (s : list fval) : list fval :=
  match s with
  | [] => []
  | NaN :: t => prev :: ffill_from prev t
  | Num q :: t => Num q :: ffill_from (Num q) t
  end.

Definition ffill (s : list fval) : list fval := ffill_from NaN s.

Definition fillna (value : Q) (s : list fval) : list fval :=
  map (fun v => match v with NaN => Num value | Num q => Num q end) s.

End Pandas.
Import Pandas.

Notation "x <- c ;; k" := (bind c (fun x => k))
  (at level 61, c at next level, right associativity).

(** ** The indicator library [ta]

    The script calls three functions of the third-party package [ta],
    always with [fillna=True].  They are an interface here; the contract
    below is what the script relies on, and [TaRelease] implements the
    interface the way the package's release does. *)

Class Ta : Type := {
  sma_indicator : list Q -> Z -> list fval;
  ema_indicator : list Q -> Z -> list fval;
  rsi : list Q -> Z -> list fval
}.

Definition filled (s : list fval) : Prop := Forall (fun v => is_num v = true) s.

(** With [fillna=True] each function returns a series aligned with its
    input and without missing entries (for a positive window). *)
Record TaContract (T : Ta) : Prop := {
  sma_length : forall close w, length (sma_indicator close w) = length close;
  ema_length : forall close w, length (ema_indicator close w) = length close;
  rsi_length : forall close w, length (rsi close w) = length close;
  sma_filled : forall close w, (0 < w)%Z -> filled (sma_indicator close w);
  ema_filled : forall close w, (0 < w)%Z -> filled (ema_indicator close w);
  rsi_filled : forall close w, (0 < w)%Z -> filled (rsi close w)
}.

Module TaRelease.

(** [SMAIndicator]: [close.rolling(window, min_periods=0).mean()]. *)
Definition sma_indicator (close : list Q) (window : Z) : list fval :=
  rolling (Z.to_nat window) (mean 0) (map Num close).

(** [EMAIndicator]:
    [close.ewm(span=window, min_periods=0, adjust=False).mean()];
    a span [w] is the smoothing factor [2 / (w + 1)]. *)
Definition ema_indicator (close : list Q) (window : Z) : list fval :=
  map Num (ewm_mean (2 / (inject_Z window + 1)) close).

(** [RSIIndicator._run]:
<<
    diff = close.diff(1)
    up_direction = diff.where(diff > 0, 0.0)
    down_direction = -diff.where(diff < 0, 0.0)
    emaup = up_direction.ewm(alpha=1/window, min_periods=0, adjust=False).mean()
    emadn = down_direction.ewm(alpha=1/window, min_periods=0, adjust=False).mean()
    relative_strength = emaup / emadn
    rsi = np.where(emadn == 0, 100, 100 - (100 / (1 + relative_strength)))
>>
    and [rsi()] fills what is left undefined: forward, then with 50.
    [where] keeps an entry only when the test holds, which it never does
    on NaN, so both direction series are plain numbers. *)
Definition up_direction (close : list Q) : list Q :=
  map (fun d => match d with
                | Num x => if Qltb 0 x then x else 0
                | NaN => 0
                end%Q) (diff close).

Definition down_direction (close : list Q) : list Q :=
  map (fun d => match d with
                | Num x => - (if Qltb x 0 then x else 0)
                | NaN => - 0
                end%Q) (diff close).

Definition rsi_value (emaup emadn : Q) : fval :=
  if Qeqb emadn 0 then Num 100
  else fsub (Num 100) (fdiv (Num 100) (Num (1 + emaup / emadn))).

Fixpoint zip_with {A B C : Type} (f : A -> B -> C) (l : list A) (r : list B)
  : list C :=
  match l, r with
  | a :: l', b :: r' => f a b :: zip_with f l' r'
  | _, _ => []
  end.

Definition emaup (close : list Q) (window : Z) : list Q :=
  ewm_mean (1 / inject_Z window) (up_direction close).

Definition emadn (close : list Q) (window : Z) : list Q :=
  ewm_mean (1 / inject_Z window) (down_direction close).

Definition rsi (close : list Q) (window : Z) : list fval :=
  fillna 50 (ffill (zip_with rsi_value (emaup close window)
                      (emadn close window))).

End TaRelease.

Definition ta_release : Ta := {|
  sma_indicator := TaRelease.sma_indicator;
  ema_indicator := TaRelease.ema_indicator;
  rsi := TaRelease.rsi
|}.

(** A square root on rationals, rounded down to 32 fractional bits. *)
Definition sqrt_floor (q : Q) : Q :=
  (inject_Z (Z.sqrt ((Qnum q * 2 ^ 64) / Z.pos (Qden q))) / inject_Z (2 ^ 32))%Q.

Definition sqrt_release : Sqrt := {| fsqrt := sqrt_floor |}.

(** ** The price table (lines 56-58) *)

Record PriceBar : Type := mkBar {
  Date : Z;
  Open : Q;
  High : Q;
  Low : Q;
  Close : Q;
  Volume : Z
}.

Definition DataFrame : Type := list PriceBar.

(** Bars have positive closing prices. *)
Definition positive_closes (close : list Q) : Prop :=
  Forall (fun c => (0 < c)%Q) close.

(** ** Indicator columns (lines 74-80) *)

Record Indicators : Type := mkIndicators {
  SMA_short : list fval;
  SMA_long : list fval;
  EMA : list fval;
  RSI : list fval;
  Returns : list fval;
  Volatility : list fval
}.

Definition computeIndicators {T : Ta} {R : Sqrt} (close : list Q)
  (cfg : WindowConfig) : Indicators :=
  let returns := pct_change close in
  {| SMA_short := sma_indicator close (sma_short cfg);
     SMA_long := sma_indicator close (sma_long cfg);
     EMA := ema_indicator close (ema_win cfg);
     RSI := rsi close (rsi_win cfg);
     Returns := returns;
     Volatility := rolling (Z.to_nat (vol_win cfg)) (std 1) returns |}.

(** ** The chart (lines 92-165) *)

Record Toggles : Type := mkToggles {
  show_sma : bool;
  show_ema : bool;
  show_rsi : bool;
  show_volume : bool
}.

Inductive trace : Type :=
| Candlestick (x : list Z) (open high low close : list Q)
| Bar (x : list Z) (y : list Z)
| Scatter (x : list Z) (y : list fval) (name : string) (window : Z)
| HLine (y : Z).

Record Figure : Type := mkFigure {
  fig_rows : nat;
  fig_traces : list (nat * trace)
}.

Definition make_figure (t : Toggles) (df : DataFrame) (cfg : WindowConfig)
  (ind : Indicators) : Figure :=
  let x := map Date df in
  {| fig_rows := if show_rsi t then 2 else 1;
     fig_traces :=
       [(1%nat, Candlestick x (map Open df) (map High df) (map Low df)
                  (map Close df))]
       ++ (if show_volume t then [(1%nat, Bar x (map Volume df))] else [])
       ++ (if show_sma t
           then [(1%nat, Scatter x (SMA_short ind) "SMA" (sma_short cfg));
                 (1%nat, Scatter x (SMA_long ind) "SMA" (sma_long cfg))]
           else [])
       ++ (if show_ema t
           then [(1%nat, Scatter x (EMA ind) "EMA" (ema_win cfg))]
           else [])
       ++ (if show_rsi t
           then [(2%nat, Scatter x (RSI ind) "RSI" (rsi_win cfg));
                 (2%nat, HLine 70); (2%nat, HLine 30)]
           else []) |}.

(** ** The narrative (lines 168-186) and the whole run *)

Record Narrative : Type := mkNarrative {
  n_vol_regime : string;
  n_trend_bias : string;
  n_rsi_val : fval;
  n_regime_phrase : string;
  n_momentum_phrase : string
}.

Record Page : Type := mkPage {
  page_mode : string;
  page_table : Indicators;
  page_latest_vol : fval;
  page_figure : Figure;
  page_narrative : Narrative
}.

(** The page of a run whose last-row reads gave [latest_vol], [ema_last],
    [sma_short_last] and [rsi_val]. *)
Definition page_of (t : Toggles) (df : DataFrame) (cfg : WindowConfig)
  (ind : Indicators) (latest_vol ema_last sma_short_last rsi_val : fval)
  : Page :=
  let regime := vol_regime latest_vol in
  let fig := make_figure t df cfg ind in
  let bias := trend_bias ema_last sma_short_last in
  {| page_mode := mode cfg;
     page_table := ind;
     page_latest_vol := latest_vol;
     page_figure := fig;
     page_narrative :=
       {| n_vol_regime := regime;
          n_trend_bias := bias;
          n_rsi_val := rsi_val;
          n_regime_phrase := regime_phrase regime;
          n_momentum_phrase := momentum_phrase rsi_val |} |}.

(** The script, top to bottom.  Only the four last-row reads can raise;
    the chart is drawn between the first read and the other three and is a
    pure value, so the page is put together once all reads are done. *)
Definition app {T : Ta} {R : Sqrt} (t : Toggles) (df : DataFrame)
  : result Page :=
  let data_len := Z.of_nat (length df) in
  let cfg := selectWindows data_len in
  let ind := computeIndicators (map Close df) cfg in
  latest_vol <- iloc_last (Volatility ind) ;;
  ema_last <- iloc_last (EMA ind) ;;
  sma_short_last <- iloc_last (SMA_short ind) ;;
  rsi_val <- iloc_last (RSI ind) ;;
  ret (page_of t df cfg ind latest_vol ema_last sma_short_last rsi_val).

(** What a run computes, apart from the chart. *)
Definition computed (p : Page) : string * Indicators * fval * Narrative :=
  (page_mode p, page_table p, page_latest_vol p, page_narrative p).

(** The table shipped as [data/sample_data.csv]. *)
Definition sample_data : DataFrame :=
  [ mkBar 19723 42000 42550 41800 42300 31250;
    mkBar 19724 42300 43000 42100 42850 34120;
    mkBar 19725 42850 43200 42400 42600 29840;
    mkBar 19726 42600 42750 41950 42100 35670 ].

(** Every selected window fits in the table. *)
Definition windows_fit (df : DataFrame) : Prop :=
  Forall (fun w => (w <= Z.of_nat (length df))%Z)
         (windows_of (selectWindows (Z.of_nat (length df)))).

(** A column is defined from position [k] on. *)
Definition defined_from (k : nat) (s : list fval) : Prop :=
  forall i, (k <= i < length s)%nat -> is_num (nth i s NaN) = true.

(** The outcome of a run with the chart left out. *)
Definition outcome (r : result Page)
  : result (string * Indicators * fval * Narrative) :=
  match r with
  | inl e => inl e
  | inr p => inr (computed p)
  end.

(** The shape of the six indicator columns over [n] bars: aligned with
    the table; the four [ta] columns defined everywhere; the returns
    missing at the first bar only; the volatility missing at the first two
    bars only. *)
Definition indicator_shape (ind : Indicators) (n : nat) : Prop :=
  (length (SMA_short ind) = n /\ length (SMA_long ind) = n /\
   length (EMA ind) = n /\ length (RSI ind) = n /\
   length (Returns ind) = n /\ length (Volatility ind) = n) /\
  (defined_from 0 (SMA_short ind) /\ defined_from 0 (SMA_long ind) /\
   defined_from 0 (EMA ind) /\ defined_from 0 (RSI ind)) /\
  (defined_from 1 (Returns ind) /\ nth 0 (Returns ind) NaN = NaN) /\
  (defined_from 2 (Volatility ind) /\
   nth 0 (Volatility ind) NaN = NaN /\ nth 1 (Volatility ind) NaN = NaN).

(** All six columns are empty. *)
Definition empty_indicators (ind : Indicators) : Prop :=
  SMA_short ind = [] /\ SMA_long ind = [] /\ EMA ind = [] /\
  RSI ind = [] /\ Returns ind = [] /\ Volatility ind = [].

(** ** Chart layout (lines 92-101) and orderings *)

(** The arguments of [make_subplots]: the number of rows, the relative
    row heights, and per row whether it carries a secondary y axis. *)
Record Subplots : Type := mkSubplots {
  sp_rows : nat;
  sp_row_heights : list Q;
  sp_specs : list bool
}.

Definition make_subplots_args (t : Toggles) : Subplots :=
  {| sp_rows := if show_rsi t then 2 else 1;
     sp_row_heights := if show_rsi t then [0.75; 0.25]%Q else [1.0]%Q;
     sp_specs := [true] ++ (if show_rsi t then [false] else []) |}.

(** A trace whose series all have [n] entries. *)
Definition trace_aligned (n : nat) (tr : trace) : Prop :=
  match tr with
  | Candlestick x o h l c =>
      length x = n /\ length o = n /\ length h = n /\ length l = n /\
      length c = n
  | Bar x y => length x = n /\ length y = n
  | Scatter x y _ _ => length x = n /\ length y = n
  | HLine _ => True
  end.


(** The three regimes in increasing order of volatility. *)
Definition regime_rank (label : string) : nat :=
  if String.eqb label "Low" then 0
  else if String.eqb label "Medium" then 1
  else 2.

(** The three momentum phrases in increasing order of the oscillator. *)
Definition momentum_rank (phrase : string) : nat :=
  if String.eqb phrase "oversold conditions" then 0
  else if String.eqb phrase "balanced participation" then 1
  else 2.

(** A defined value between 0 and 100. *)
Definition in_0_100 (v : fval) : Prop :=
  match v with
  | Num q => (0 <= q <= 100)%Q
  | NaN => False
  end.

(** ** The build script ([ci_build.py], lines 8-15 and 210-245)

    The script works on the directory tree below the working directory.
    The tree is a finite map from relative paths (lists of components) to
    nodes; the working directory itself is the empty path and always a
    directory.  The script catches no exception, and the ones the file
    operations raise ([FileExistsError], [FileNotFoundError],
    [NotADirectoryError], [IsADirectoryError]) are all [OSError]. *)

Module Build.

Definition path : Type := list string.

Inductive node : Type :=
| Dir
| File (content : string).

Definition fs : Type := list (path * node).

Inductive exn : Type := OSError.

Definition result (A : Type) : Type := (exn + A)%type.

Definition bind {A B : Type} (c : result A) (k : A -> result B) : result B :=
  match c with
  | inl e => inl e
  | inr x => k x
  end.

Fixpoint path_eqb (p q : path) : bool :=
  match p, q with
  | [], [] => true
  | a :: p', b :: q' => String.eqb a b && path_eqb p' q'
  | _, _ => false
  end.

Fixpoint find (s : fs) (p : path) : option node :=
  match s with
  | [] => None
  | (q, n) :: s' => if path_eqb q p then Some n else find s' p
  end.

(** What is at a path; the working directory always exists. *)
Definition lookup (s : fs) (p : path) : option node :=
  match p with
  | [] => Some Dir
  | _ :: _ => find s p
  end.

(** Put a node at a path: in place when the path exists, else as a new
    entry. *)
Fixpoint set (p : path) (n : node) (s : fs) : fs :=
  match s with
  | [] => [(p, n)]
  | (q, m) :: s' =>
      if path_eqb q p then (q, n) :: s' else (q, m) :: set p n s'
  end.

(** [Path.parent]. *)
Definition parent (p : path) : path := removelast p.

(** [Path.mkdir(exist_ok=True)]: nothing to do on a directory; an error on
    a file, and when the parent is not a directory. *)
Definition mkdir (p : path) (s : fs) : result fs :=
  match lookup s p with
  | Some Dir => inr s
  | Some (File _) => inl OSError
  | None =>
      match lookup s (parent p) with
      | Some Dir => inr (set p Dir s)
      | _ => inl OSError
      end
  end.

(** A [for] loop whose body can raise. *)
Fixpoint for_each {A : Type} (body : A -> fs -> result fs) (l : list A)
  (s : fs) : result fs :=
  match l with
  | [] => inr s
  | x :: l' => bind (body x s) (for_each body l')
  end.

(** The ancestors of a path from the top down, the path itself last. *)
Definition prefixes (p : path) : list path :=
  map (fun k => firstn k p) (seq 1 (length p)).

(** [Path.mkdir(parents=True, exist_ok=True)]: every missing ancestor is
    created, then the directory itself. *)
Definition mkdir_parents (p : path) (s : fs) : result fs :=
  for_each mkdir (prefixes p) s.

(** [Path.write_text(content)]: create or overwrite a file; an error on a
    directory, and when the parent is not a directory. *)
Definition write_text (p : path) (content : string) (s : fs) : result fs :=
  match lookup s p with
  | Some Dir => inl OSError
  | _ =>
      match lookup s (parent p) with
      | Some Dir => inr (set p (File content) s)
      | _ => inl OSError
      end
  end.

(** [create_structure] (lines 210-218), with its three globals as
    arguments; [BASE_DIR] is a single component. *)
Definition write_entry (base : string) (entry : path * string) (s : fs)
  : result fs :=
  let full_path := base :: fst entry in
  bind (mkdir_parents (parent full_path) s)
       (write_text full_path (snd entry)).

Definition create_structure_in (base : string) (folders : list string)
  (files : list (path * string)) (s : fs) : result fs :=
  bind (mkdir [base] s) (fun s1 =>
  bind (for_each (fun folder => mkdir [base; folder]) folders s1) (fun s2 =>
  for_each (write_entry base) files s2)).

(** [zip_project] (lines 232-238): the entries written to the archive, one
    per file below [BASE_DIR], each named by its path relative to the
    parent of [BASE_DIR], which is the working directory.  [os.walk] lists
    them in the order the system lists directories; here they come in the
    order of the map.  Opening the archive for writing fails when its name
    is a directory. *)
Definition is_below (base : string) (p : path) : bool :=
  match p with
  | b :: _ :: _ => String.eqb b base
  | _ => false
  end.

Fixpoint walk_files (base : string) (s : fs) : list (path * string) :=
  match s with
  | [] => []
  | (p, File c) :: s' =>
      if is_below base p then (p, c) :: walk_files base s'
      else walk_files base s'
  | (_, Dir) :: s' => walk_files base s'
  end.

Definition zip_project_in (base : string) (zip_file : string) (s : fs)
  : result (list (path * string)) :=
  match lookup s [zip_file] with
  | Some Dir => inl OSError
  | _ => inr (walk_files base s)
  end.

(** The globals of the script (lines 8-15 and the keys of [files]). *)
Definition BASE_DIR : string := "MPAC_AI_Trading_Capstone".

Definition VENV_DIR : path := [BASE_DIR; "venv"].

Definition ZIP_FILE : string := BASE_DIR ++ ".zip".

Definition folders : list string :=
  ["data"; "app"; "product"; "prompts"; "evaluation"; "slides";
   "architecture"].

Definition file_names : list path :=
  [ ["README.txt"];
    ["data"; "sample_data.csv"];
    ["app"; "app.py"];
    ["app"; "requirements.txt"];
    ["product"; "PRD.txt"];
    ["product"; "Ethics_and_Risks.txt"];
    ["product"; "User_Testing_Feedback.txt"];
    ["evaluation"; "Judge_Evaluation_Rubric.txt"];
    ["slides"; "Final_Presentation_Outline.txt"];
    ["architecture"; "AI_Architecture.txt"] ].

(** The dictionary [files]; the texts are a parameter. *)
Definition files (text : path -> string) : list (path * string) :=
  map (fun name => (name, text name)) file_names.

Definition create_structure (text : path -> string) (s : fs) : result fs :=
  create_structure_in BASE_DIR folders (files text) s.

Definition zip_project (s : fs) : result (list (path * string)) :=
  zip_project_in BASE_DIR ZIP_FILE s.

(** No entry of the tree is [base] or below it. *)
Definition fresh (base : string) (s : fs) : Prop :=
  Forall (fun e => hd_error (fst e) <> Some base) s.

(** The tree [create_structure] builds in a fresh directory. *)
Definition project_tree (text : path -> string) : fs :=
  List.app
  [ ([BASE_DIR], Dir);
    ([BASE_DIR; "data"], Dir);
    ([BASE_DIR; "app"], Dir);
    ([BASE_DIR; "product"], Dir);
    ([BASE_DIR; "prompts"], Dir);
    ([BASE_DIR; "evaluation"], Dir);
    ([BASE_DIR; "slides"], Dir);
    ([BASE_DIR; "architecture"], Dir) ]
  (map (fun name => (BASE_DIR :: name, File (text name))) file_names).

(** Every entry lies in a directory. *)
Definition well_formed (s : fs) : Prop :=
  forall p n, lookup s p = Some n -> lookup s (parent p) = Some Dir.

(** [s'] keeps every entry of [s] except files at the paths [written]. *)
Definition keeps (written : list path) (s s' : fs) : Prop :=
  forall q n, lookup s q = Some n ->
              n = Dir \/ ~ In q written ->
              lookup s' q = Some n.

(** The paths [create_structure_in] writes a file to. *)
Definition targets (base : string) (files : list (path * string))
  : list path :=
  map (fun entry => base :: fst entry) files.

(** Other entries in front of a tree. *)
Definition beside (other : fs) (r : result fs) : result fs :=
  match r with
  | inl e => inl e
  | inr s => inr (other ++ s)%list
  end.

(** [create_venv], [install_dependencies] and [main] (lines 220-245).
    What the two child processes do to the tree is not in the script:
    [subprocess_run] is a parameter, raising when the program to run is
    missing.  Their exit status is not looked at. *)
Inductive arg : Type :=
| Str (text : string)
| PathArg (p : path).

Section Main.

Variable sys_executable : string.
Variable os_name : string.
Variable subprocess_run : list arg -> fs -> result fs.

Definition create_venv (s : fs) : result fs :=
  subprocess_run [Str sys_executable; Str "-m"; Str "venv"; PathArg VENV_DIR]
    s.

Definition pip_path : path :=
  if String.eqb os_name "nt"
  then (VENV_DIR ++ ["Scripts"; "pip.exe"])%list
  else (VENV_DIR ++ ["bin"; "pip"])%list.

Definition install_dependencies (s : fs) : result fs :=
  subprocess_run
    [PathArg pip_path; Str "install"; Str "-r";
     PathArg [BASE_DIR; "app"; "requirements.txt"]] s.

Definition main (text : path -> string) (s : fs)
  : result (list (path * string)) :=
  bind (create_structure text s) (fun s1 =>
  bind (create_venv s1) (fun s2 =>
  bind (install_dependencies s2) zip_project)).

End Main.

(** A child process that leaves every file outside [VENV_DIR] as it is. *)
Definition outside_venv (p : path) : Prop := firstn 2 p <> VENV_DIR.

Definition stays_in_venv (run : list arg -> fs -> result fs) : Prop :=
  forall args s s' q c,
    run args s = inr s' -> outside_venv q ->
    lookup s q = Some (File c) -> lookup s' q = Some (File c).

(** A child process that only makes [VENV_DIR] and a file in it. *)
Definition venv_only_run (args : list arg) (s : fs) : result fs :=
  bind (mkdir_parents VENV_DIR s)
       (write_text (VENV_DIR ++ ["pyvenv.cfg"])%list "home = /usr/bin").

End Build.

(** * Properties *)

(** ** Comparisons *)

Lemma Qltb_lt (x y : Q) : Qltb x y = true <-> (x < y)%Q.
Proof.
  unfold Qltb. rewrite Qlt_alt.
  destruct (x ?= y)%Q; split; congruence.
Qed.

Lemma Qltb_ge (x y : Q) : Qltb x y = false <-> (y <= x)%Q.
Proof.
  split; intro H.
  - apply Qnot_lt_le. intro L. apply Qltb_lt in L. congruence.
  - destruct (Qltb x y) eqn:E; [| reflexivity].
    apply Qltb_lt in E. exfalso. apply (Qlt_not_le _ _ E H).
Qed.

Lemma Qeqb_eq (x y : Q) : Qeqb x y = true <-> (x == y)%Q.
Proof.
  unfold Qeqb. rewrite Qeq_alt.
  destruct (x ?= y)%Q; split; congruence.
Qed.

Lemma flt_Num (x y : Q) : flt (Num x) (Num y) = true <-> (x < y)%Q.
Proof. apply Qltb_lt. Qed.

Lemma flt_Num_false (x y : Q) : flt (Num x) (Num y) = false <-> (y <= x)%Q.
Proof. apply Qltb_ge. Qed.

Lemma flt_NaN_l (b : fval) : flt NaN b = false.
Proof. reflexivity. Qed.

Lemma flt_NaN_r (a : fval) : flt a NaN = false.
Proof. destruct a; reflexivity. Qed.

(** Decide a comparison of two numbers and keep the order fact. *)
Ltac case_flt x y :=
  let E := fresh "E" in
  destruct (flt (Num x) (Num y)) eqn:E;
  [apply flt_Num in E | apply flt_Num_false in E].

(** ** Volatility regime *)

(** C1: for every number [v], the regime is Low when [v < 0.01], Medium
    when [0.01 <= v < 0.025] and High when [0.025 <= v]; both lower bounds
    belong to the higher regime. *)
Theorem vol_regime_thresholds (v : Q) :
  ((v < 0.01)%Q -> vol_regime (Num v) = "Low") /\
  ((0.01 <= v)%Q -> (v < 0.025)%Q -> vol_regime (Num v) = "Medium") /\
  ((0.025 <= v)%Q -> vol_regime (Num v) = "High").
Proof.
  unfold vol_regime.
  case_flt v 0.01%Q; case_flt v 0.025%Q;
    repeat split; intros; try reflexivity; exfalso; lra.
Qed.

Lemma vol_regime_thresholds_witness :
  vol_regime (Num 0.0099) = "Low" /\
  vol_regime (Num 0.01) = "Medium" /\
  vol_regime (Num 0.025) = "High".
Proof.
  split; [| split].
  - apply (proj1 (vol_regime_thresholds 0.0099)). reflexivity.
  - apply (proj1 (proj2 (vol_regime_thresholds 0.01))).
    + discriminate.
    + reflexivity.
  - apply (proj2 (proj2 (vol_regime_thresholds 0.025))). discriminate.
Defined.

(** An undefined volatility falls through both tests. *)
Lemma vol_regime_NaN : vol_regime NaN = "High".
Proof. reflexivity. Qed.

(** ** Window presets *)

(** C2: every integer bar count selects exactly one preset:
    (20, 50, 20, 14, 20) Production from 100 bars on,
    (14, 30, 14, 10, 14) ReducedHistory from 60 to 99 bars, and
    (3, 5, 3, 3, 3) Demo below 60 bars.  [selectWindows] is a total
    function, so there is no error case. *)
Theorem selectWindows_presets (barCount : Z) :
  ((100 <= barCount)%Z ->
     selectWindows barCount = mkWindows 20 50 20 14 20 "Production" /\
     mode_of_label (mode (selectWindows barCount)) = Some Production) /\
  ((60 <= barCount < 100)%Z ->
     selectWindows barCount = mkWindows 14 30 14 10 14 "Reduced History" /\
     mode_of_label (mode (selectWindows barCount)) = Some ReducedHistory) /\
  ((barCount < 60)%Z ->
     selectWindows barCount = mkWindows 3 5 3 3 3 "Demo" /\
     mode_of_label (mode (selectWindows barCount)) = Some Demo).
Proof.
  unfold selectWindows.
  destruct (Z.geb_spec barCount 100); [| destruct (Z.geb_spec barCount 60)];
    repeat split; intros; try reflexivity; lia.
Qed.

Lemma selectWindows_presets_witness :
  selectWindows 100 = mkWindows 20 50 20 14 20 "Production" /\
  selectWindows 60 = mkWindows 14 30 14 10 14 "Reduced History" /\
  selectWindows 59 = mkWindows 3 5 3 3 3 "Demo".
Proof.
  split; [| split].
  - apply (proj1 (selectWindows_presets 100)). lia.
  - apply (proj1 (proj2 (selectWindows_presets 60))). lia.
  - apply (proj2 (proj2 (selectWindows_presets 59))). lia.
Defined.

(** C6, as stated, fails on the shipped four-row table: the Demo long
    window is 5. *)
Lemma windows_fit_sample_data_fails : ~ windows_fit sample_data.
Proof.
  unfold windows_fit. intro H.
  apply Forall_inv_tail, Forall_inv in H. simpl in H. lia.
Qed.

(** C6 (amended): the selected windows all fit in the table exactly when
    the table has at least 5 rows. *)
Theorem windows_fit_iff (df : DataFrame) :
  windows_fit df <-> (5 <= length df)%nat.
Proof.
  unfold windows_fit, windows_of, selectWindows.
  set (n := Z.of_nat (length df)).
  assert (Hn : (5 <= length df)%nat <-> (5 <= n)%Z) by (subst n; lia).
  rewrite Hn. clear Hn.
  destruct (Z.geb_spec n 100); [| destruct (Z.geb_spec n 60)]; simpl; split.
  all: try (intros _; lia).
  all: try (intros _; repeat constructor; lia).
  - intro Hfit. apply Forall_inv_tail, Forall_inv in Hfit. exact Hfit.
  - intro Hlen. repeat constructor; lia.
Qed.

(** ** Trend bias *)

(** C3: the bias is Bullish exactly when the last EMA is strictly above
    the last short moving average, and Bearish otherwise; equal values
    give Bearish. *)
Theorem trend_bias_strict (ema_last sma_last : Q) :
  (trend_bias (Num ema_last) (Num sma_last) = "Bullish"
     <-> (sma_last < ema_last)%Q) /\
  (trend_bias (Num ema_last) (Num sma_last) = "Bearish"
     <-> (ema_last <= sma_last)%Q) /\
  ((ema_last == sma_last)%Q ->
     trend_bias (Num ema_last) (Num sma_last) = "Bearish").
Proof.
  unfold trend_bias, fgt.
  case_flt sma_last ema_last; repeat split; intros;
    try reflexivity; try assumption; try discriminate; exfalso; lra.
Qed.

Lemma trend_bias_strict_witness :
  trend_bias (Num 42587.5) (Num 42587.5) = "Bearish".
Proof.
  apply (proj2 (proj2 (trend_bias_strict 42587.5 42587.5))). reflexivity.
Defined.

(** A missing value on either side compares false, hence Bearish. *)
Lemma trend_bias_NaN (a : fval) :
  trend_bias NaN a = "Bearish" /\ trend_bias a NaN = "Bearish".
Proof. unfold trend_bias, fgt. destruct a; split; reflexivity. Qed.

(** ** Momentum phrase *)

(** C4: for every number [m], the momentum state is Overbought when
    [m > 70], Oversold when [m < 30] and Neutral in between; 30 and 70
    themselves are Neutral. *)
Theorem momentum_state_thresholds (m : Q) :
  ((70 < m)%Q ->
     momentum_phrase (Num m) = "overbought conditions" /\
     momentum_state_of_phrase (momentum_phrase (Num m)) = Some Overbought) /\
  ((m < 30)%Q ->
     momentum_phrase (Num m) = "oversold conditions" /\
     momentum_state_of_phrase (momentum_phrase (Num m)) = Some Oversold) /\
  ((30 <= m)%Q -> (m <= 70)%Q ->
     momentum_phrase (Num m) = "balanced participation" /\
     momentum_state_of_phrase (momentum_phrase (Num m)) = Some Neutral).
Proof.
  unfold momentum_phrase, fgt.
  case_flt 70%Q m; case_flt m 30%Q;
    repeat split; intros; try reflexivity; exfalso; lra.
Qed.

Lemma momentum_state_thresholds_witness :
  momentum_phrase (Num 30) = "balanced participation" /\
  momentum_phrase (Num 70) = "balanced participation" /\
  momentum_phrase (Num 29.999) = "oversold conditions" /\
  momentum_phrase (Num 70.001) = "overbought conditions".
Proof.
  split; [| split; [| split]].
  - apply (proj2 (proj2 (momentum_state_thresholds 30))); discriminate.
  - apply (proj2 (proj2 (momentum_state_thresholds 70))); discriminate.
  - apply (proj1 (proj2 (momentum_state_thresholds 29.999))). reflexivity.
  - apply (proj1 (momentum_state_thresholds 70.001)). reflexivity.
Defined.

(** ** Series operations *)

Section SeriesFacts.

Context {A B : Type}.

Lemma iloc_last_raises (s : list A) : iloc_last s = inl IndexError <-> s = [].
Proof.
  induction s as [| x t IH]; simpl.
  - split; reflexivity.
  - destruct t as [| y t'].
    + split; discriminate.
    + rewrite IH. split; discriminate.
Qed.

Lemma iloc_last_returns (s : list A) :
  (0 < length s)%nat -> exists x, iloc_last s = inr x.
Proof.
  intro Hlen. destruct (iloc_last s) as [[] | x] eqn:E.
  - apply iloc_last_raises in E. subst s. simpl in Hlen. lia.
  - exists x. reflexivity.
Qed.

Lemma iloc_last_app (s : list A) (x : A) :
  iloc_last (s ++ [x])%list = inr x.
Proof.
  induction s as [| y t IH]; [reflexivity |].
  simpl. destruct (t ++ [x])%list eqn:E; [| exact IH].
  destruct t; discriminate E.
Qed.

Lemma length_rolling (w : nat) (f : list A -> B) (s : list A) :
  length (rolling w f s) = length s.
Proof. unfold rolling. rewrite length_map, length_seq. reflexivity. Qed.

Lemma nth_rolling (w : nat) (f : list A -> B) (s : list A) (i : nat) (d : B) :
  (i < length s)%nat -> nth i (rolling w f s) d = f (window_at w s i).
Proof.
  intro Hi. unfold rolling.
  rewrite (nth_indep _ d (f (window_at w s 0%nat)))
    by (rewrite length_map, length_seq; exact Hi).
  rewrite (map_nth (fun j => f (window_at w s j))).
  rewrite seq_nth by exact Hi. reflexivity.
Qed.

Lemma length_window_at (w : nat) (s : list A) (i : nat) :
  (i < length s)%nat -> length (window_at w s i) = Nat.min (S i) w.
Proof.
  intro Hi. unfold window_at.
  rewrite length_skipn, length_firstn. lia.
Qed.

End SeriesFacts.

Lemma observations_map_Num (l : list Q) : observations (map Num l) = l.
Proof. induction l as [| q t IH]; simpl; [| rewrite IH]; reflexivity. Qed.

Lemma length_pct_change_from (prev : fval) (s : list Q) :
  length (pct_change_from prev s) = length s.
Proof.
  revert prev. induction s as [| x t IH]; intro prev; simpl;
    [| rewrite IH]; reflexivity.
Qed.

Lemma length_diff_from (prev : fval) (s : list Q) :
  length (diff_from prev s) = length s.
Proof.
  revert prev. induction s as [| x t IH]; intro prev; simpl;
    [| rewrite IH]; reflexivity.
Qed.

Lemma length_ewm_from (alpha prev : Q) (s : list Q) :
  length (ewm_from alpha prev s) = length s.
Proof.
  revert prev. induction s as [| x t IH]; intro prev; simpl;
    [| rewrite IH]; reflexivity.
Qed.

Lemma length_ewm_mean (alpha : Q) (s : list Q) :
  length (ewm_mean alpha s) = length s.
Proof.
  destruct s as [| x t]; simpl; [| rewrite length_ewm_from]; reflexivity.
Qed.

Lemma length_ffill_from (prev : fval) (s : list fval) :
  length (ffill_from prev s) = length s.
Proof.
  revert prev. induction s as [| [q |] t IH]; intro prev; simpl;
    try rewrite IH; reflexivity.
Qed.

Lemma filled_fillna (value : Q) (s : list fval) : filled (fillna value s).
Proof.
  unfold filled, fillna. apply Forall_map, Forall_forall.
  intros [q |] _; reflexivity.
Qed.

Lemma filled_map_Num (l : list Q) : filled (map Num l).
Proof.
  unfold filled. apply Forall_map, Forall_forall. intros q _. reflexivity.
Qed.

(** After the first bar, positive closes give a defined return at every
    bar. *)
Lemma pct_change_from_positive (p : Q) (s : list Q) :
  (0 < p)%Q -> positive_closes s ->
  exists rs, pct_change_from (Num p) s = map Num rs /\ length rs = length s.
Proof.
  revert p. induction s as [| x t IH]; intros p Hp Hs.
  - exists []. split; reflexivity.
  - inversion Hs as [| ? ? Hx Ht]; subst.
    destruct (IH x Hx Ht) as [rs [Hrs Hlen]].
    assert (Hz : Qeqb p 0 = false).
    { destruct (Qeqb p 0) eqn:E; [| reflexivity].
      apply Qeqb_eq in E. rewrite E in Hp. exfalso. apply (Qlt_irrefl _ Hp). }
    exists ((x / p - 1)%Q :: rs). simpl. rewrite Hz, Hrs, Hlen.
    split; reflexivity.
Qed.

(** The returns column of a table with positive closes: a missing first
    entry, then numbers. *)
Lemma pct_change_positive (close : list Q) :
  positive_closes close ->
  close = [] \/
  exists rs, pct_change close = NaN :: map Num rs /\
             S (length rs) = length close.
Proof.
  intro Hc. destruct close as [| c0 t]; [left; reflexivity | right].
  inversion Hc as [| ? ? H0 Ht]; subst.
  destruct (pct_change_from_positive c0 t H0 Ht) as [rs [Hrs Hlen]].
  exists rs. unfold pct_change. simpl. rewrite Hrs, Hlen.
  split; reflexivity.
Qed.

(** The number of observations in a trailing window of such a column. *)
Lemma observations_window_returns (w : nat) (rs : list Q) (i : nat) :
  (i <= length rs)%nat ->
  length (observations (window_at w (NaN :: map Num rs) i)) = Nat.min i w.
Proof.
  intro Hi. unfold window_at. rewrite firstn_cons, firstn_map.
  destruct (S i - w)%nat as [| k] eqn:E.
  - simpl. rewrite observations_map_Num, length_firstn. lia.
  - rewrite skipn_cons, skipn_map, observations_map_Num.
    rewrite length_skipn, length_firstn. lia.
Qed.

Section StdFacts.

Context {R : Sqrt}.

(** A standard deviation needs two observations. *)
Lemma is_num_std (win : list fval) :
  is_num (std 1 win) = (2 <=? length (observations win))%nat.
Proof.
  unfold std.
  destruct (length (observations win)) as [| [| n]]; reflexivity.
Qed.

Lemma std_single (v : fval) : std 1 [v] = NaN.
Proof. destruct v; reflexivity. Qed.

End StdFacts.

(** ** The released [ta] functions meet the contract *)

Lemma is_num_mean0 (win : list fval) :
  is_num (mean 0 win) = negb (length (observations win) =? 0)%nat.
Proof.
  unfold mean. destruct (length (observations win)); reflexivity.
Qed.

Lemma length_zip_with {A B C : Type} (f : A -> B -> C) (l : list A)
  (r : list B) :
  length (TaRelease.zip_with f l r) = Nat.min (length l) (length r).
Proof.
  revert r. induction l as [| a l IH]; intros [| b r]; simpl;
    try rewrite IH; reflexivity.
Qed.

Lemma TaRelease_sma_filled (close : list Q) (w : Z) :
  (0 < w)%Z -> filled (TaRelease.sma_indicator close w).
Proof.
  intro Hw. unfold filled, TaRelease.sma_indicator, rolling.
  apply Forall_map, Forall_forall. intros i Hi.
  apply in_seq in Hi. rewrite length_map in Hi.
  rewrite is_num_mean0. unfold window_at.
  rewrite firstn_map, skipn_map, observations_map_Num.
  rewrite length_skipn, length_firstn.
  apply negb_true_iff, Nat.eqb_neq. lia.
Qed.

Lemma length_emaup (close : list Q) (w : Z) :
  length (TaRelease.emaup close w) = length close.
Proof.
  unfold TaRelease.emaup, TaRelease.up_direction, diff.
  rewrite length_ewm_mean, length_map, length_diff_from. reflexivity.
Qed.

Lemma length_emadn (close : list Q) (w : Z) :
  length (TaRelease.emadn close w) = length close.
Proof.
  unfold TaRelease.emadn, TaRelease.down_direction, diff.
  rewrite length_ewm_mean, length_map, length_diff_from. reflexivity.
Qed.

Lemma TaRelease_rsi_length (close : list Q) (w : Z) :
  length (TaRelease.rsi close w) = length close.
Proof.
  unfold TaRelease.rsi, fillna, ffill.
  rewrite length_map, length_ffill_from, length_zip_with.
  rewrite length_emaup, length_emadn. lia.
Qed.

Lemma ta_release_contract : TaContract ta_release.
Proof.
  constructor; simpl; intros close w.
  - unfold TaRelease.sma_indicator.
    rewrite length_rolling, length_map. reflexivity.
  - unfold TaRelease.ema_indicator.
    rewrite length_map, length_ewm_mean. reflexivity.
  - apply TaRelease_rsi_length.
  - apply TaRelease_sma_filled.
  - intros _. apply filled_map_Num.
  - intros _. apply filled_fillna.
Qed.

(** ** Indicator columns *)

Lemma selectWindows_positive (barCount : Z) :
  Forall (fun w => (0 < w)%Z) (windows_of (selectWindows barCount)).
Proof.
  unfold selectWindows.
  destruct (barCount >=? 100)%Z; [| destruct (barCount >=? 60)%Z];
    repeat constructor.
Qed.

Lemma vol_win_at_least_3 (barCount : Z) :
  (3 <= Z.to_nat (vol_win (selectWindows barCount)))%nat.
Proof.
  unfold selectWindows.
  destruct (barCount >=? 100)%Z; [| destruct (barCount >=? 60)%Z];
    simpl; lia.
Qed.

Lemma filled_defined_from (s : list fval) : filled s -> defined_from 0 s.
Proof.
  intros Hs i [_ Hi]. unfold filled in Hs.
  rewrite Forall_forall in Hs. apply Hs, nth_In, Hi.
Qed.

Section EngineFacts.

Context {T : Ta} {R : Sqrt}.

Lemma length_Volatility (close : list Q) (cfg : WindowConfig) :
  length (Volatility (computeIndicators close cfg)) = length close.
Proof.
  simpl. rewrite length_rolling. apply length_pct_change_from.
Qed.

(** Where the volatility of a table with positive closes is defined. *)
Lemma is_num_Volatility (close : list Q) (barCount : Z) (i : nat) :
  positive_closes close -> (i < length close)%nat ->
  is_num (nth i (Volatility (computeIndicators close (selectWindows barCount)))
              NaN)
  = (2 <=? i)%nat.
Proof.
  intros Hc Hi. unfold computeIndicators. cbn [Volatility].
  destruct (pct_change_positive close Hc) as [-> | [rs [Hrs Hlen]]];
    [simpl in Hi; lia |].
  rewrite Hrs.
  rewrite nth_rolling by (simpl; rewrite length_map; lia).
  rewrite is_num_std, observations_window_returns by lia.
  pose proof (vol_win_at_least_3 barCount) as Hw.
  destruct (Nat.leb_spec 2 i) as [Hge | Hlt];
    [apply Nat.leb_le | apply Nat.leb_gt]; lia.
Qed.

Lemma is_num_Returns (close : list Q) (cfg : WindowConfig) (i : nat) :
  positive_closes close -> (i < length close)%nat ->
  is_num (nth i (Returns (computeIndicators close cfg)) NaN) = (1 <=? i)%nat.
Proof.
  intros Hc Hi. unfold computeIndicators. cbn [Returns].
  destruct (pct_change_positive close Hc) as [-> | [rs [Hrs Hlen]]];
    [simpl in Hi; lia |].
  rewrite Hrs. destruct i as [| j]; [reflexivity |].
  simpl. rewrite (nth_indep _ NaN (Num 0)) by (rewrite length_map; lia).
  rewrite (map_nth Num). reflexivity.
Qed.

End EngineFacts.

Lemma sample_data_positive : positive_closes (map Close sample_data).
Proof. repeat constructor. Qed.

(** C5, as stated, fails on the shipped table: the volatility of the second
    bar is undefined, because its window holds a single return and a
    sample standard deviation needs two. *)
Lemma volatility_second_bar_undefined :
  ~ defined_from 1
      (Volatility (@computeIndicators ta_release sqrt_release
                     (map Close sample_data) (selectWindows 4))).
Proof.
  intro H. specialize (H 1%nat).
  assert (Hi : (1 <= 1 < 4)%nat) by lia.
  specialize (H Hi). vm_compute in H. discriminate H.
Qed.

(** C5 (amended): for every table with positive closes, the six columns
    have the length of the table; the two moving averages, the EMA and the
    momentum column are defined at every bar; the return is undefined at
    the first bar only; the volatility is undefined at the first two bars
    and defined from the third bar on. *)
Theorem computeIndicators_shape {T : Ta} {R : Sqrt} (HT : TaContract T)
  (close : list Q) (barCount : Z) :
  positive_closes close ->
  indicator_shape (computeIndicators close (selectWindows barCount))
                  (length close).
Proof.
  intro Hc.
  pose proof (selectWindows_positive barCount) as Hw.
  unfold windows_of in Hw.
  inversion Hw as [| ? ? Hss Hw1]; subst.
  inversion Hw1 as [| ? ? Hsl Hw2]; subst.
  inversion Hw2 as [| ? ? Hem Hw3]; subst.
  inversion Hw3 as [| ? ? Hrs _]; subst.
  destruct HT as [Ls Le Lr Fs Fe Fr].
  repeat apply conj.
  - apply Ls.
  - apply Ls.
  - apply Le.
  - apply Lr.
  - apply length_pct_change_from.
  - apply length_Volatility.
  - apply filled_defined_from, Fs, Hss.
  - apply filled_defined_from, Fs, Hsl.
  - apply filled_defined_from, Fe, Hem.
  - apply filled_defined_from, Fr, Hrs.
  - intros i [Hlo Hhi].
    assert (Hi : (i < length close)%nat).
    { change (Returns (computeIndicators close (selectWindows barCount)))
        with (pct_change close) in Hhi.
      unfold pct_change in Hhi. rewrite length_pct_change_from in Hhi.
      exact Hhi. }
    rewrite (is_num_Returns close _ i Hc Hi). apply Nat.leb_le, Hlo.
  - destruct close as [| c0 t]; reflexivity.
  - intros i [Hlo Hhi]. rewrite length_Volatility in Hhi.
    rewrite (is_num_Volatility close barCount i Hc Hhi).
    apply Nat.leb_le, Hlo.
  - destruct (Nat.lt_ge_cases 0 (length close)) as [Hlt | Hge].
    + pose proof (is_num_Volatility close barCount 0 Hc Hlt) as E.
      destruct (nth 0 _ NaN); [discriminate E | reflexivity].
    + apply nth_overflow. rewrite length_Volatility. exact Hge.
  - destruct (Nat.lt_ge_cases 1 (length close)) as [Hlt | Hge].
    + pose proof (is_num_Volatility close barCount 1 Hc Hlt) as E.
      destruct (nth 1 _ NaN); [discriminate E | reflexivity].
    + apply nth_overflow. rewrite length_Volatility. exact Hge.
Qed.

Lemma computeIndicators_shape_witness :
  indicator_shape
    (@computeIndicators ta_release sqrt_release (map Close sample_data)
       (selectWindows 4))
    (length (map Close sample_data)).
Proof.
  exact (@computeIndicators_shape ta_release sqrt_release ta_release_contract
           (map Close sample_data) 4 sample_data_positive).
Defined.

(** ** The whole run *)

Section RunFacts.

Context {T : Ta} {R : Sqrt}.

(** A run whose four last-row reads succeed returns its page. *)
Lemma app_page (t : Toggles) (df : DataFrame) (v e s r : fval) :
  let cfg := selectWindows (Z.of_nat (length df)) in
  let ind := computeIndicators (map Close df) cfg in
  iloc_last (Volatility ind) = inr v ->
  iloc_last (EMA ind) = inr e ->
  iloc_last (SMA_short ind) = inr s ->
  iloc_last (RSI ind) = inr r ->
  app t df = inr (page_of t df cfg ind v e s r).
Proof.
  intros cfg ind Hv He Hs Hr. unfold app. fold cfg. fold ind.
  rewrite Hv. unfold bind at 1. rewrite He. unfold bind at 1.
  rewrite Hs. unfold bind at 1. rewrite Hr. reflexivity.
Qed.

(** On an empty table the first last-row read raises. *)
Lemma app_empty (t : Toggles) : app t [] = inl IndexError.
Proof. reflexivity. Qed.

Lemma app_nonempty (HT : TaContract T) (t : Toggles) (df : DataFrame) :
  (0 < length df)%nat ->
  let cfg := selectWindows (Z.of_nat (length df)) in
  let ind := computeIndicators (map Close df) cfg in
  exists v e s r,
    iloc_last (Volatility ind) = inr v /\
    app t df = inr (page_of t df cfg ind v e s r).
Proof.
  intros Hlen cfg ind. destruct HT as [Ls Le Lr _ _ _].
  destruct (iloc_last_returns (Volatility ind)) as [v Hv].
  { subst ind. rewrite length_Volatility, length_map. exact Hlen. }
  destruct (iloc_last_returns (EMA ind)) as [e He].
  { subst ind. simpl. rewrite Le, length_map. exact Hlen. }
  destruct (iloc_last_returns (SMA_short ind)) as [s Hs].
  { subst ind. simpl. rewrite Ls, length_map. exact Hlen. }
  destruct (iloc_last_returns (RSI ind)) as [r Hr].
  { subst ind. simpl. rewrite Lr, length_map. exact Hlen. }
  exists v, e, s, r. split; [exact Hv |].
  apply (app_page t df v e s r Hv He Hs Hr).
Qed.


End RunFacts.

(** C7: a run raises exactly when the table is empty (the exception is the
    [IndexError] of reading the last volatility); every non-empty table
    gives a page; and the indicator columns of an empty table are computed
    without an exception and are all empty. *)
Theorem app_raises_iff_empty {T : Ta} {R : Sqrt} (HT : TaContract T)
  (t : Toggles) (df : DataFrame) :
  (app t df = inl IndexError <-> df = []) /\
  (df <> [] -> exists p, app t df = inr p) /\
  empty_indicators (computeIndicators (map Close []) (selectWindows 0)).
Proof.
  assert (Hne : df <> [] -> exists p, app t df = inr p).
  { intro Hdf.
    destruct (app_nonempty HT t df) as [v [e [s [r [_ Hp]]]]];
      [destruct df; [congruence | simpl; lia] |].
    eexists. exact Hp. }
  split; [| split].
  - split.
    + intro Hraise. destruct df as [| b df']; [reflexivity |].
      destruct Hne as [p Hp]; [discriminate |]. congruence.
    + intros ->. apply app_empty.
  - exact Hne.
  - destruct HT as [Ls Le Lr _ _ _].
    unfold empty_indicators. simpl.
    repeat apply conj;
      try reflexivity; apply length_zero_iff_nil;
      first [apply Ls | apply Le | apply Lr].
Qed.

Lemma app_raises_iff_empty_witness :
  (@app ta_release sqrt_release (mkToggles true true true true) sample_data
     = inl IndexError <-> sample_data = []) /\
  @app ta_release sqrt_release (mkToggles true true true true) []
     = inl IndexError.
Proof.
  pose proof (@app_raises_iff_empty ta_release sqrt_release
                ta_release_contract (mkToggles true true true true)) as H.
  split.
  - exact (proj1 (H sample_data)).
  - apply (proj1 (H [])). reflexivity.
Defined.

(** C9: two runs on the same table that differ only in the four display
    toggles compute the same mode, the same indicator columns, the same
    latest volatility and the same narrative (regime, bias, momentum
    value and phrases), or raise the same exception. *)
Theorem toggles_do_not_change_values {T : Ta} {R : Sqrt}
  (t1 t2 : Toggles) (df : DataFrame) :
  outcome (app t1 df) = outcome (app t2 df).
Proof.
  unfold app, bind.
  destruct (iloc_last (Volatility _)) as [ev | v]; [reflexivity |].
  destruct (iloc_last (EMA _)) as [ee | e]; [reflexivity |].
  destruct (iloc_last (SMA_short _)) as [es | s]; [reflexivity |].
  destruct (iloc_last (RSI _)) as [er | r]; reflexivity.
Qed.

(** The toggles are not idle: they change the chart. *)
Lemma toggles_change_figure :
  @app ta_release sqrt_release (mkToggles true true true true) sample_data
  <> @app ta_release sqrt_release (mkToggles false true true true) sample_data.
Proof.
  intro H.
  assert (E : match @app ta_release sqrt_release
                      (mkToggles true true true true) sample_data with
              | inr p => length (fig_traces (page_figure p))
              | inl _ => 0%nat
              end = 8%nat) by (vm_compute; reflexivity).
  rewrite H in E. vm_compute in E. discriminate E.
Qed.

(** C10: on a one-row table the latest volatility is NaN, the run does not
    raise, and the regime is High. *)
Theorem single_bar_regime_high {T : Ta} {R : Sqrt} (HT : TaContract T)
  (t : Toggles) (df : DataFrame) :
  length df = 1%nat ->
  iloc_last (Volatility (computeIndicators (map Close df)
                           (selectWindows (Z.of_nat (length df)))))
    = inr NaN /\
  exists p, app t df = inr p /\
            page_latest_vol p = NaN /\
            n_vol_regime (page_narrative p) = "High".
Proof.
  intro Hlen.
  destruct df as [| b [| b' df']]; try discriminate Hlen.
  assert (Hv : iloc_last (Volatility (computeIndicators (map Close [b])
                 (selectWindows (Z.of_nat (length [b]))))) = inr NaN)
    by reflexivity.
  split; [exact Hv |].
  destruct (app_nonempty HT t [b]) as [v [e [s [r [Hv' Hp]]]]];
    [simpl; lia |].
  rewrite Hv in Hv'. injection Hv' as <-.
  eexists. split; [exact Hp |]. split; reflexivity.
Qed.

Lemma single_bar_regime_high_witness :
  exists p,
    @app ta_release sqrt_release (mkToggles true true true true)
      [mkBar 19723 42000 42550 41800 42300 31250] = inr p /\
    page_latest_vol p = NaN /\
    n_vol_regime (page_narrative p) = "High".
Proof.
  exact (proj2 (@single_bar_regime_high ta_release sqrt_release
                  ta_release_contract (mkToggles true true true true)
                  [mkBar 19723 42000 42550 41800 42300 31250] eq_refl)).
Defined.

(** ** The momentum oscillator of the released [ta] *)

Lemma nth_zip_with {A B C : Type} (f : A -> B -> C) (l : list A)
  (r : list B) (i : nat) (da : A) (db : B) (dc : C) :
  (i < length l)%nat -> (i < length r)%nat ->
  nth i (TaRelease.zip_with f l r) dc = f (nth i l da) (nth i r db).
Proof.
  revert r i. induction l as [| a l IH]; intros [| b r] i Hl Hr;
    simpl in *; try lia.
  destruct i as [| j]; [reflexivity |]. apply IH; lia.
Qed.

Lemma nth_ffill_from (prev : fval) (s : list fval) (i : nat) (q : Q) :
  nth i s NaN = Num q -> nth i (ffill_from prev s) NaN = Num q.
Proof.
  revert prev i. induction s as [| v t IH]; intros prev i Hq.
  - destruct i; discriminate Hq.
  - destruct i as [| j]; destruct v as [x |]; simpl in *;
      try discriminate Hq; try exact Hq; apply IH, Hq.
Qed.

Lemma nth_fillna (value : Q) (s : list fval) (i : nat) (q : Q) :
  nth i s NaN = Num q -> nth i (fillna value s) NaN = Num q.
Proof.
  revert i. induction s as [| v t IH]; intros i Hq.
  - destruct i; discriminate Hq.
  - destruct i as [| j]; simpl in *; [rewrite Hq; reflexivity | apply IH, Hq].
Qed.

(** C8, as stated, fails on a flat series: both averages are zero at every
    bar and the oscillator reads 100, not 50. *)
Lemma rsi_flat_series_is_not_50 :
  Forall (fun x => (x == 0)%Q) (TaRelease.emaup [5; 5; 5; 5]%Q 3) /\
  Forall (fun x => (x == 0)%Q) (TaRelease.emadn [5; 5; 5; 5]%Q 3) /\
  iloc_last (@rsi ta_release [5; 5; 5; 5]%Q 3) = inr (Num 100) /\
  iloc_last (@rsi ta_release [5; 5; 5; 5]%Q 3) <> inr (Num 50).
Proof.
  split; [| split; [| split]].
  - repeat constructor.
  - repeat constructor.
  - reflexivity.
  - vm_compute. discriminate.
Qed.

(** C8 (amended): the oscillator is defined at every bar of every series,
    and at every bar where the average downward movement is zero, in
    particular where there has been no movement at all, its value is
    100. *)
Theorem rsi_zero_loss_is_100 (close : list Q) (w : Z) :
  filled (@rsi ta_release close w) /\
  forall i, (i < length close)%nat ->
            (nth i (TaRelease.emadn close w) 0 == 0)%Q ->
            nth i (@rsi ta_release close w) NaN = Num 100.
Proof.
  split.
  - apply filled_fillna.
  - intros i Hi Hz. simpl. unfold TaRelease.rsi, ffill.
    apply nth_fillna, nth_ffill_from.
    rewrite (nth_zip_with _ _ _ i 0%Q 0%Q)
      by (rewrite ?length_emaup, ?length_emadn; exact Hi).
    unfold TaRelease.rsi_value.
    apply Qeqb_eq in Hz. rewrite Hz. reflexivity.
Qed.

Lemma rsi_zero_loss_is_100_witness :
  nth 3 (@rsi ta_release [5; 5; 5; 5]%Q 3) NaN = Num 100.
Proof.
  apply (proj2 (rsi_zero_loss_is_100 [5; 5; 5; 5]%Q 3) 3%nat).
  - simpl. lia.
  - reflexivity.
Defined.

(** On a table whose closes never move, the narrative therefore reports
    overbought conditions. *)
Lemma flat_table_reads_overbought :
  exists p,
    @app ta_release sqrt_release (mkToggles true true true true)
      [ mkBar 1 5 5 5 5 10; mkBar 2 5 5 5 5 10;
        mkBar 3 5 5 5 5 10; mkBar 4 5 5 5 5 10 ] = inr p /\
    n_rsi_val (page_narrative p) = Num 100 /\
    n_momentum_phrase (page_narrative p) = "overbought conditions".
Proof. eexists. split; [vm_compute; reflexivity |]. split; reflexivity. Qed.

(** * Further properties of the script *)

(** ** Window presets *)

(** X1: more history never shortens a window: each of the five windows is
    non-decreasing in the number of rows. *)
Theorem selectWindows_monotone (n m : Z) :
  (n <= m)%Z ->
  Forall2 Z.le (windows_of (selectWindows n)) (windows_of (selectWindows m)).
Proof.
  intro Hnm. unfold selectWindows, windows_of.
  destruct (Z.geb_spec n 100); destruct (Z.geb_spec m 100);
    destruct (Z.geb_spec n 60); destruct (Z.geb_spec m 60);
    simpl; try lia; repeat constructor; lia.
Qed.

Lemma selectWindows_monotone_witness :
  Forall2 Z.le (windows_of (selectWindows 59)) (windows_of (selectWindows 60)).
Proof. apply (selectWindows_monotone 59 60). lia. Defined.

(** X2: in every preset the short average window is positive and strictly
    below the long one, the EMA and the volatility use the short window,
    and the momentum window is positive and not above it. *)
Theorem selectWindows_ordered (barCount : Z) :
  let c := selectWindows barCount in
  (0 < sma_short c < sma_long c)%Z /\
  ema_win c = sma_short c /\
  vol_win c = sma_short c /\
  (0 < rsi_win c <= sma_short c)%Z.
Proof.
  unfold selectWindows.
  destruct (barCount >=? 100)%Z; [| destruct (barCount >=? 60)%Z];
    simpl; repeat split; lia.
Qed.

(** ** Classification *)

(** X3: the regime is monotone in the volatility: a larger volatility never
    gives a lower regime. *)
Theorem vol_regime_monotone (v1 v2 : Q) :
  (v1 <= v2)%Q ->
  (regime_rank (vol_regime (Num v1)) <= regime_rank (vol_regime (Num v2)))%nat.
Proof.
  intro Hv. unfold vol_regime.
  case_flt v1 0.01%Q; case_flt v1 0.025%Q;
    case_flt v2 0.01%Q; case_flt v2 0.025%Q;
    try (vm_compute; lia); exfalso; lra.
Qed.

Lemma vol_regime_monotone_witness :
  (regime_rank (vol_regime (Num 0.01)) <= regime_rank (vol_regime (Num 0.025)))%nat.
Proof. apply (vol_regime_monotone 0.01 0.025). discriminate. Defined.

(** X4: the momentum phrase is monotone in the oscillator value. *)
Theorem momentum_phrase_monotone (m1 m2 : Q) :
  (m1 <= m2)%Q ->
  (momentum_rank (momentum_phrase (Num m1))
   <= momentum_rank (momentum_phrase (Num m2)))%nat.
Proof.
  intro Hm. unfold momentum_phrase, fgt.
  case_flt 70%Q m1; case_flt m1 30%Q;
    case_flt 70%Q m2; case_flt m2 30%Q;
    try (vm_compute; lia); exfalso; lra.
Qed.

Lemma momentum_phrase_monotone_witness :
  (momentum_rank (momentum_phrase (Num 30))
   <= momentum_rank (momentum_phrase (Num 70)))%nat.
Proof. apply (momentum_phrase_monotone 30 70). discriminate. Defined.

(** X5: the risk sentence of the narrative always matches the regime
    label, whatever the volatility (a number or NaN): stable conditions
    exactly for Low, heightened uncertainty exactly for High, and the
    remaining sentence exactly for Medium. *)
Theorem regime_phrase_matches_label (v : fval) :
  (regime_phrase (vol_regime v) = "stable conditions with controlled risk"
     <-> vol_regime v = "Low") /\
  (regime_phrase (vol_regime v) = "heightened uncertainty requiring caution"
     <-> vol_regime v = "High") /\
  (regime_phrase (vol_regime v) = "moderate risk with selective opportunities"
     <-> vol_regime v = "Medium").
Proof.
  unfold vol_regime.
  destruct (flt v (Num 0.01)); [| destruct (flt v (Num 0.025))];
    simpl; repeat split; intro H; try reflexivity; discriminate H.
Qed.

(** ** The chart *)


(** X7: the arguments of [make_subplots] agree with each other and with
    the figure: one height and one axis specification per row, heights
    that add up to 1, and a secondary axis on the first row, where the
    volume bars are drawn. *)
Theorem make_subplots_args_consistent (t : Toggles) (df : DataFrame)
  (cfg : WindowConfig) (ind : Indicators) :
  let a := make_subplots_args t in
  sp_rows a = fig_rows (make_figure t df cfg ind) /\
  length (sp_row_heights a) = sp_rows a /\
  length (sp_specs a) = sp_rows a /\
  (Qsum (sp_row_heights a) == 1)%Q /\
  nth_error (sp_specs a) 0 = Some true.
Proof.
  destruct t as [sma ema [] vol]; simpl; repeat split.
Qed.

(** X8: when a run returns, every series drawn in the chart has one
    entry per row of the table, for every toggle assignment. *)
Theorem chart_series_aligned {T : Ta} {R : Sqrt} (HT : TaContract T)
  (t : Toggles) (df : DataFrame) (p : Page) :
  app t df = inr p ->
  Forall (fun rt => trace_aligned (length df) (snd rt))
         (fig_traces (page_figure p)).
Proof.
  unfold app, bind. intro Hp.
  destruct (iloc_last (Volatility _)) as [ev | v]; [discriminate Hp |].
  destruct (iloc_last (EMA _)) as [ee | e]; [discriminate Hp |].
  destruct (iloc_last (SMA_short _)) as [es | s]; [discriminate Hp |].
  destruct (iloc_last (RSI _)) as [er | r]; [discriminate Hp |].
  injection Hp as <-. destruct HT as [Ls Le Lr _ _ _].
  destruct t as [[] [] [] []]; cbn -[selectWindows];
    repeat constructor; cbn -[selectWindows];
    rewrite ?length_map, ?Ls, ?Le, ?Lr, ?length_map; reflexivity.
Qed.

Lemma chart_series_aligned_witness :
  exists p,
    @app ta_release sqrt_release (mkToggles true true true true) sample_data
      = inr p /\
    Forall (fun rt => trace_aligned (length sample_data) (snd rt))
           (fig_traces (page_figure p)).
Proof.
  eexists. split; [vm_compute; reflexivity |].
  apply (@chart_series_aligned ta_release sqrt_release ta_release_contract
           (mkToggles true true true true) sample_data).
  vm_compute. reflexivity.
Defined.

(** ** The run on short and long tables *)

Lemma iloc_last_nth {A : Type} (s : list A) (d : A) :
  (0 < length s)%nat -> iloc_last s = inr (nth (length s - 1) s d).
Proof.
  induction s as [| x t IH]; intro Hlen; [simpl in Hlen; lia |].
  destruct t as [| y t']; [reflexivity |].
  change (iloc_last (x :: y :: t')) with (iloc_last (y :: t')).
  rewrite IH by (simpl; lia). simpl. rewrite Nat.sub_0_r. reflexivity.
Qed.

(** X9: on a table of one or two rows the latest volatility is NaN,
    whatever the prices, so the run reports the High regime and the
    sentence about heightened uncertainty. *)
Theorem short_table_regime_high {T : Ta} {R : Sqrt} (HT : TaContract T)
  (t : Toggles) (df : DataFrame) :
  (1 <= length df <= 2)%nat ->
  exists p, app t df = inr p /\
            page_latest_vol p = NaN /\
            n_vol_regime (page_narrative p) = "High" /\
            n_regime_phrase (page_narrative p)
              = "heightened uncertainty requiring caution".
Proof.
  intro Hlen.
  destruct (app_nonempty HT t df) as [v [e [s [r [Hv Hp]]]]]; [lia |].
  assert (Hnan : v = NaN).
  { destruct df as [| b0 [| b1 [| b2 df']]]; simpl in Hlen; try lia.
    - cbn in Hv. injection Hv as <-. reflexivity.
    - cbn -[Qeqb] in Hv. destruct (Qeqb (Close b0) 0);
        cbn in Hv; injection Hv as <-; reflexivity. }
  subst v. eexists. split; [exact Hp |]. repeat split.
Qed.

Lemma short_table_regime_high_witness :
  exists p,
    @app ta_release sqrt_release (mkToggles true true true true)
      [mkBar 19723 42000 42550 41800 42300 31250;
       mkBar 19724 42300 43000 42100 42850 34120] = inr p /\
    page_latest_vol p = NaN /\
    n_vol_regime (page_narrative p) = "High" /\
    n_regime_phrase (page_narrative p)
      = "heightened uncertainty requiring caution".
Proof.
  apply (@short_table_regime_high ta_release sqrt_release ta_release_contract).
  simpl. lia.
Defined.

(** X10: on a table of at least three rows with positive closes the latest
    volatility is a number, and the regime is the one its thresholds
    give. *)
Theorem long_table_volatility_defined {T : Ta} {R : Sqrt} (HT : TaContract T)
  (t : Toggles) (df : DataFrame) :
  positive_closes (map Close df) -> (3 <= length df)%nat ->
  exists p v, app t df = inr p /\
              page_latest_vol p = Num v /\
              n_vol_regime (page_narrative p) = vol_regime (Num v).
Proof.
  intros Hc Hlen.
  destruct (app_nonempty HT t df) as [v [e [s [r [Hv Hp]]]]]; [lia |].
  rewrite (iloc_last_nth _ NaN) in Hv
    by (rewrite length_Volatility, length_map; lia).
  rewrite length_Volatility, length_map in Hv.
  pose proof (is_num_Volatility (map Close df) (Z.of_nat (length df))
                (length df - 1) Hc) as Hnum.
  rewrite length_map in Hnum.
  assert (Hv' : nth (length df - 1)
                  (Volatility (computeIndicators (map Close df)
                     (selectWindows (Z.of_nat (length df))))) NaN = v)
    by congruence.
  rewrite Hv' in Hnum.
  destruct v as [q |].
  - exists (page_of t df (selectWindows (Z.of_nat (length df)))
              (computeIndicators (map Close df)
                 (selectWindows (Z.of_nat (length df)))) (Num q) e s r), q.
    split; [exact Hp |]. split; reflexivity.
  - assert (Hlt : (length df - 1 < length df)%nat) by lia.
    specialize (Hnum Hlt).
    rewrite (proj2 (Nat.leb_le 2 (length df - 1))) in Hnum by lia.
    discriminate Hnum.
Qed.

Lemma long_table_volatility_defined_witness :
  exists p v,
    @app ta_release sqrt_release (mkToggles true true true true) sample_data
      = inr p /\
    page_latest_vol p = Num v /\
    n_vol_regime (page_narrative p) = vol_regime (Num v).
Proof.
  apply (@long_table_volatility_defined ta_release sqrt_release
           ta_release_contract).
  - exact sample_data_positive.
  - simpl. lia.
Defined.


(** ** Returns and volatility *)

Lemma nth_pct_change_from (prev : fval) (s : list Q) (i : nat) :
  (S i < length s)%nat ->
  nth (S i) (pct_change_from prev s) NaN
  = fsub (fdiv (Num (nth (S i) s 0%Q)) (Num (nth i s 0%Q))) (Num 1).
Proof.
  revert prev i. induction s as [| x t IH]; intros prev i Hi;
    [simpl in Hi; lia |].
  destruct t as [| y t']; [simpl in Hi; lia |].
  destruct i as [| j]; [reflexivity |].
  change (nth (S (S j)) (pct_change_from prev (x :: y :: t')) NaN)
    with (nth (S j) (pct_change_from (Num x) (y :: t')) NaN).
  rewrite IH by (simpl in *; lia). reflexivity.
Qed.

(** X11: the return of the first bar is missing, and the return of every
    later bar whose previous close is not zero is that bar's close divided
    by the previous close, minus 1. *)
Theorem Returns_formula {T : Ta} {R : Sqrt} (close : list Q)
  (cfg : WindowConfig) :
  nth 0 (Returns (computeIndicators close cfg)) NaN = NaN /\
  forall i, (S i < length close)%nat ->
            ~ (nth i close 0 == 0)%Q ->
            nth (S i) (Returns (computeIndicators close cfg)) NaN
            = Num (nth (S i) close 0 / nth i close 0 - 1).
Proof.
  split.
  - destruct close; reflexivity.
  - intros i Hi Hnz. unfold computeIndicators. cbn [Returns].
    unfold pct_change. rewrite nth_pct_change_from by exact Hi.
    unfold fdiv.
    destruct (Qeqb (nth i close 0%Q) 0) eqn:E; [| reflexivity].
    apply Qeqb_eq in E. contradiction.
Qed.

Lemma Returns_formula_witness :
  nth 1 (Returns (@computeIndicators ta_release sqrt_release
                    (map Close sample_data) (selectWindows 4))) NaN
  = Num (42850 / 42300 - 1).
Proof.
  apply (proj2 (@Returns_formula ta_release sqrt_release
                  (map Close sample_data) (selectWindows 4)) 0%nat).
  - simpl. lia.
  - discriminate.
Defined.






(** ** The released [ta] functions *)

Lemma ewm_from_nonneg (alpha prev : Q) (s : list Q) :
  (0 <= alpha <= 1)%Q -> (0 <= prev)%Q ->
  Forall (fun x => (0 <= x)%Q) s ->
  Forall (fun x => (0 <= x)%Q) (ewm_from alpha prev s).
Proof.
  intros Ha. revert prev. induction s as [| x t IH]; intros prev Hp Hs.
  - constructor.
  - inversion Hs as [| ? ? Hx Ht]; subst. simpl.
    assert (Hy : (0 <= (1 - alpha) * prev + alpha * x)%Q).
    { assert (H1 : (0 <= (1 - alpha) * prev)%Q)
        by (apply Qmult_le_0_compat; lra).
      assert (H2 : (0 <= alpha * x)%Q)
        by (apply Qmult_le_0_compat; lra).
      lra. }
    constructor; [exact Hy | apply IH; assumption].
Qed.

Lemma ewm_mean_nonneg (alpha : Q) (s : list Q) :
  (0 <= alpha <= 1)%Q ->
  Forall (fun x => (0 <= x)%Q) s ->
  Forall (fun x => (0 <= x)%Q) (ewm_mean alpha s).
Proof.
  intros Ha Hs. destruct s as [| x t]; [constructor |].
  inversion Hs as [| ? ? Hx Ht]; subst. simpl.
  constructor; [exact Hx | apply ewm_from_nonneg; assumption].
Qed.

Lemma up_direction_nonneg (close : list Q) :
  Forall (fun x => (0 <= x)%Q) (TaRelease.up_direction close).
Proof.
  unfold TaRelease.up_direction. apply Forall_map, Forall_forall.
  intros [x |] _; [| discriminate].
  destruct (Qltb 0 x) eqn:E; [apply Qltb_lt in E; lra | discriminate].
Qed.

Lemma down_direction_nonneg (close : list Q) :
  Forall (fun x => (0 <= x)%Q) (TaRelease.down_direction close).
Proof.
  unfold TaRelease.down_direction. apply Forall_map, Forall_forall.
  intros [x |] _; [| discriminate].
  destruct (Qltb x 0) eqn:E; [apply Qltb_lt in E; lra | discriminate].
Qed.

Lemma rsi_value_in_range (up dn : Q) :
  (0 <= up)%Q -> (0 <= dn)%Q -> in_0_100 (TaRelease.rsi_value up dn).
Proof.
  intros Hup Hdn. unfold TaRelease.rsi_value.
  destruct (Qeqb dn 0) eqn:E; [simpl; split; discriminate |].
  assert (Hpos : (0 < dn)%Q).
  { apply Qle_lteq in Hdn. destruct Hdn as [Hlt | Heq]; [exact Hlt |].
    symmetry in Heq. apply Qeqb_eq in Heq. congruence. }
  assert (Hrs : (0 <= up / dn)%Q)
    by (apply Qle_shift_div_l; [exact Hpos | lra]).
  assert (Hd : (0 < 1 + up / dn)%Q) by lra.
  unfold fdiv.
  destruct (Qeqb (1 + up / dn) 0) eqn:Ez;
    [apply Qeqb_eq in Ez; rewrite Ez in Hd; exfalso;
     apply (Qlt_irrefl _ Hd) |].
  simpl.
  assert (Hlo : (0 <= 100 / (1 + up / dn))%Q)
    by (apply Qle_shift_div_l; [exact Hd | lra]).
  assert (Hhi : (100 / (1 + up / dn) <= 100)%Q)
    by (apply Qle_shift_div_r; [exact Hd | lra]).
  split; lra.
Qed.

Lemma zip_rsi_value_in_range (ups dns : list Q) :
  Forall (fun x => (0 <= x)%Q) ups -> Forall (fun x => (0 <= x)%Q) dns ->
  Forall in_0_100 (TaRelease.zip_with TaRelease.rsi_value ups dns).
Proof.
  intro Hu. revert dns. induction Hu as [| u ups Hu0 Hu IH]; intros dns Hd.
  - constructor.
  - destruct Hd as [| d dns Hd0 Hd]; simpl; [constructor |].
    constructor; [apply rsi_value_in_range; assumption | apply IH, Hd].
Qed.

Lemma fill_in_range (prev : fval) (s : list fval) :
  Forall in_0_100 s -> fillna 50 (ffill_from prev s) = s.
Proof.
  revert prev. induction s as [| v t IH]; intros prev Hs; [reflexivity |].
  inversion Hs as [| ? ? Hv Ht]; subst.
  destruct v as [q |]; [| contradiction].
  simpl. rewrite IH by exact Ht. reflexivity.
Qed.

Lemma alpha_in_unit (w : Z) : (1 <= w)%Z -> (0 <= 1 / inject_Z w <= 1)%Q.
Proof.
  intro Hw.
  assert (Hpos : (0 < inject_Z w)%Q)
    by (change 0%Q with (inject_Z 0); rewrite <- Zlt_Qlt; lia).
  assert (Hone : (1 <= inject_Z w)%Q)
    by (change 1%Q with (inject_Z 1); rewrite <- Zle_Qle; exact Hw).
  split.
  - apply Qle_shift_div_l; [exact Hpos | lra].
  - apply Qle_shift_div_r; [exact Hpos | lra].
Qed.

(** X13: for every series and every window of at least one bar, each value
    of the released momentum oscillator is a number between 0 and 100. *)
Theorem rsi_between_0_and_100 (close : list Q) (w : Z) :
  (1 <= w)%Z -> Forall in_0_100 (@rsi ta_release close w).
Proof.
  intro Hw. simpl. unfold TaRelease.rsi, ffill.
  pose proof (alpha_in_unit w Hw) as Ha.
  assert (Hz : Forall in_0_100
                 (TaRelease.zip_with TaRelease.rsi_value
                    (TaRelease.emaup close w) (TaRelease.emadn close w))).
  { apply zip_rsi_value_in_range; apply ewm_mean_nonneg;
      first [exact Ha | apply up_direction_nonneg
             | apply down_direction_nonneg]. }
  rewrite fill_in_range by exact Hz. exact Hz.
Qed.

Lemma rsi_between_0_and_100_witness :
  Forall in_0_100 (@rsi ta_release (map Close sample_data) 3).
Proof. apply (rsi_between_0_and_100 (map Close sample_data) 3). lia. Defined.

(** X14: with the released [ta], a one-row table always reads the same,
    whatever the bar and the toggles: regime High, bias Bearish (the EMA
    and the short average both equal the single close), oscillator 100 and
    overbought conditions. *)
Theorem single_bar_narrative {R : Sqrt} (t : Toggles) (b : PriceBar) :
  exists p,
    @app ta_release R t [b] = inr p /\
    n_vol_regime (page_narrative p) = "High" /\
    n_trend_bias (page_narrative p) = "Bearish" /\
    n_rsi_val (page_narrative p) = Num 100 /\
    n_momentum_phrase (page_narrative p) = "overbought conditions".
Proof.
  eexists. split; [reflexivity |].
  cbn -[Qltb]. change (Pos.to_nat 3) with 3%nat. cbn -[Qltb].
  split; [reflexivity |]. split; [| split; reflexivity].
  unfold trend_bias, fgt, flt.
  destruct (Qltb _ (Close b)) eqn:E; [| reflexivity].
  apply Qltb_lt in E. unfold Qmean, Qsum in E. simpl in E.
  exfalso. revert E. apply Qle_not_lt.
  setoid_replace ((Close b + 0) / inject_Z 1)%Q with (Close b) by field.
  apply Qle_refl.
Qed.

(** * The build script *)

Module BuildFacts.
Import Build.

Lemma path_eqb_eq (p q : path) : path_eqb p q = true <-> p = q.
Proof.
  revert q. induction p as [| a p IH]; intros [| b q]; simpl;
    try (split; [discriminate | discriminate]); [split; reflexivity |].
  rewrite andb_true_iff, String.eqb_eq, IH.
  split; [intros [-> ->]; reflexivity | intro H; injection H; auto].
Qed.

Lemma path_eqb_refl (p : path) : path_eqb p p = true.
Proof. apply path_eqb_eq. reflexivity. Qed.

Lemma path_eqb_neq (p q : path) : p <> q -> path_eqb p q = false.
Proof.
  intro H. destruct (path_eqb p q) eqn:E; [| reflexivity].
  apply path_eqb_eq in E. contradiction.
Qed.

Lemma find_set_same (p : path) (n : node) (s : fs) :
  find (set p n s) p = Some n.
Proof.
  induction s as [| [q m] s IH]; simpl.
  - rewrite path_eqb_refl. reflexivity.
  - destruct (path_eqb q p) eqn:E; simpl; rewrite E; [reflexivity | exact IH].
Qed.

Lemma find_set_other (p q : path) (n : node) (s : fs) :
  q <> p -> find (set p n s) q = find s q.
Proof.
  intro Hne. induction s as [| [r m] s IH]; simpl.
  - rewrite path_eqb_neq by congruence. reflexivity.
  - destruct (path_eqb r p) eqn:E; simpl.
    + apply path_eqb_eq in E. subst r.
      rewrite path_eqb_neq by congruence. reflexivity.
    + rewrite IH. reflexivity.
Qed.

Lemma lookup_set_same (p : path) (n : node) (s : fs) :
  p <> [] -> lookup (set p n s) p = Some n.
Proof.
  intro Hp. destruct p; [contradiction |]. apply find_set_same.
Qed.

Lemma lookup_set_other (p q : path) (n : node) (s : fs) :
  q <> p -> lookup (set p n s) q = lookup s q.
Proof.
  intro Hne. destruct q; [reflexivity |]. apply find_set_other, Hne.
Qed.

Lemma set_same (p : path) (n : node) (s : fs) :
  find s p = Some n -> set p n s = s.
Proof.
  induction s as [| [q m] s IH]; simpl; [discriminate |].
  destruct (path_eqb q p) eqn:E.
  - intro H. injection H as ->. reflexivity.
  - intro H. rewrite IH by exact H. reflexivity.
Qed.

(** What a successful [mkdir] does. *)
Lemma mkdir_inr (p : path) (s s' : fs) :
  mkdir p s = inr s' ->
  lookup s' p = Some Dir /\
  (forall q n, lookup s q = Some n -> lookup s' q = Some n) /\
  (forall q, q <> p -> lookup s' q = lookup s q).
Proof.
  unfold mkdir.
  destruct (lookup s p) as [[| c] |] eqn:Ep; try discriminate.
  - intro H. injection H as <-. auto.
  - destruct (lookup s (parent p)) as [[| c] |]; try discriminate.
    intro H. injection H as <-.
    assert (Hp : p <> []) by (intros ->; discriminate Ep).
    split; [apply lookup_set_same, Hp |]. split.
    + intros q n Hq. rewrite lookup_set_other; [exact Hq |].
      intros ->. congruence.
    + intros q Hq. apply lookup_set_other, Hq.
Qed.

Lemma mkdir_on_dir (p : path) (s : fs) :
  lookup s p = Some Dir -> mkdir p s = inr s.
Proof. intro H. unfold mkdir. rewrite H. reflexivity. Qed.

(** What a successful [write_text] does. *)
Lemma write_text_inr (p : path) (c : string) (s s' : fs) :
  write_text p c s = inr s' ->
  p <> [] /\
  lookup s' p = Some (File c) /\
  lookup s' (parent p) = Some Dir /\
  (forall q, q <> p -> lookup s' q = lookup s q).
Proof.
  unfold write_text. intro H.
  assert (Hp : p <> []) by (intros ->; discriminate H).
  assert (Hpar : parent p <> p).
  { unfold parent. intro E. apply (f_equal (@length string)) in E.
    destruct p as [| a p']; [contradiction |].
    rewrite removelast_firstn_len, length_firstn in E. simpl in E. lia. }
  assert (Hs : lookup s (parent p) = Some Dir /\ s' = set p (File c) s).
  { destruct (lookup s p) as [[| c0] |];
      destruct (lookup s (parent p)) as [[| c1] |]; try discriminate;
      injection H as <-; auto. }
  destruct Hs as [Hd ->].
  split; [exact Hp |]. split; [apply lookup_set_same, Hp |].
  split; [rewrite lookup_set_other by exact Hpar; exact Hd |].
  intros q Hq. apply lookup_set_other, Hq.
Qed.

Lemma write_text_again (p : path) (c : string) (s : fs) :
  lookup s p = Some (File c) -> lookup s (parent p) = Some Dir ->
  write_text p c s = inr s.
Proof.
  intros Hf Hd. unfold write_text. rewrite Hf, Hd.
  destruct p; [discriminate Hf |].
  rewrite set_same by exact Hf. reflexivity.
Qed.

(** ** What is kept *)

Lemma keeps_refl (w : list path) (s : fs) : keeps w s s.
Proof. intros q n H _. exact H. Qed.

Lemma keeps_trans (w1 w2 : list path) (s1 s2 s3 : fs) :
  keeps w1 s1 s2 -> keeps w2 s2 s3 -> keeps (w1 ++ w2) s1 s3.
Proof.
  intros H12 H23 q n Hq Hn. apply H23; [apply H12; [exact Hq |] |].
  - destruct Hn as [-> | Hn]; [left; reflexivity | right].
    intro Hin. apply Hn, in_or_app. left. exact Hin.
  - destruct Hn as [-> | Hn]; [left; reflexivity | right].
    intro Hin. apply Hn, in_or_app. right. exact Hin.
Qed.

Lemma keeps_weaken (w w' : list path) (s s' : fs) :
  incl w w' -> keeps w s s' -> keeps w' s s'.
Proof.
  intros Hi H q n Hq Hn. apply H; [exact Hq |].
  destruct Hn as [-> | Hn]; [left; reflexivity | right].
  intro Hin. apply Hn, Hi, Hin.
Qed.

Lemma mkdir_keeps (p : path) (s s' : fs) :
  mkdir p s = inr s' -> keeps [] s s'.
Proof.
  intros H q n Hq _. apply (proj1 (proj2 (mkdir_inr p s s' H))), Hq.
Qed.

Lemma write_text_keeps (p : path) (c : string) (s s' : fs) :
  write_text p c s = inr s' -> keeps [p] s s'.
Proof.
  intros H q n Hq Hn.
  destruct (write_text_inr p c s s' H) as [_ [_ [_ Hother]]].
  assert (Hne : q <> p).
  { intros ->. destruct Hn as [-> | Hn].
    - unfold write_text in H. rewrite Hq in H. discriminate H.
    - apply Hn. left. reflexivity. }
  rewrite Hother by exact Hne. exact Hq.
Qed.

(** A loop keeps what each round keeps. *)
Lemma for_each_keeps {A : Type} (body : A -> fs -> result fs)
  (wr : A -> list path) (l : list A) :
  (forall x s s', body x s = inr s' -> keeps (wr x) s s') ->
  forall s s', for_each body l s = inr s' -> keeps (flat_map wr l) s s'.
Proof.
  intro Hbody. induction l as [| x l IH]; intros s s' H; simpl in H.
  - injection H as <-. apply keeps_refl.
  - destruct (body x s) as [e | s1] eqn:E; [discriminate H |].
    simpl in H. simpl.
    apply (keeps_trans _ _ s s1 s'); [apply (Hbody x), E | apply IH, H].
Qed.

Lemma for_each_mkdir_keeps (l : list path) (s s' : fs) :
  for_each mkdir l s = inr s' -> keeps [] s s'.
Proof.
  intro H.
  apply (keeps_weaken (flat_map (fun _ : path => []) l)).
  - intros q Hq. apply in_flat_map in Hq. destruct Hq as [_ [_ []]].
  - apply (for_each_keeps mkdir (fun _ => [])); [| exact H].
    intros x s0 s1. apply mkdir_keeps.
Qed.

(** After a loop of [mkdir], every path of the loop is a directory. *)
Lemma for_each_mkdir_dirs (l : list path) (s s' : fs) :
  for_each mkdir l s = inr s' ->
  forall q, In q l -> lookup s' q = Some Dir.
Proof.
  revert s. induction l as [| p l IH]; intros s H q Hq; [destruct Hq |].
  simpl in H. destruct (mkdir p s) as [e | s1] eqn:E; [discriminate H |].
  simpl in H. destruct Hq as [<- | Hq]; [| apply (IH s1 H q Hq)].
  apply (for_each_mkdir_keeps l s1 s' H); [| left; reflexivity].
  exact (proj1 (mkdir_inr p s s1 E)).
Qed.

Lemma for_each_map {A B : Type} (f : A -> B) (body : B -> fs -> result fs)
  (l : list A) (s : fs) :
  for_each (fun x => body (f x)) l s = for_each body (map f l) s.
Proof.
  revert s. induction l as [| x l IH]; intro s; [reflexivity |].
  simpl. destruct (body (f x) s); [reflexivity | apply IH].
Qed.

(** A loop whose rounds all leave the tree as it is. *)
Lemma for_each_fixed {A : Type} (body : A -> fs -> result fs) (l : list A)
  (s : fs) :
  (forall x, In x l -> body x s = inr s) -> for_each body l s = inr s.
Proof.
  induction l as [| x l IH]; intro H; [reflexivity |].
  simpl. rewrite H by (left; reflexivity). simpl.
  apply IH. intros y Hy. apply H. right. exact Hy.
Qed.

(** ** [create_structure] *)

Section CreateStructure.

Variable base : string.
Variable folders : list string.

Lemma write_entry_inr (entry : path * string) (s s' : fs) :
  (write_entry base) entry s = inr s' ->
  keeps [base :: fst entry] s s' /\
  lookup s' (base :: fst entry) = Some (File (snd entry)) /\
  lookup s' (parent (base :: fst entry)) = Some Dir /\
  forall r, In r (prefixes (parent (base :: fst entry))) ->
            lookup s' r = Some Dir.
Proof.
  unfold write_entry. cbv zeta. intro H.
  destruct (mkdir_parents (parent (base :: fst entry)) s) as [e | s1] eqn:E;
    cbn [bind] in H; [discriminate H |].
  pose proof (write_text_keeps _ _ _ _ H) as Hk.
  destruct (write_text_inr _ _ _ _ H) as [_ [Hf [Hd _]]].
  split; [| split; [exact Hf | split; [exact Hd |]]].
  - apply (keeps_trans [] _ s s1 s'); [| exact Hk].
    apply (for_each_mkdir_keeps _ _ _ E).
  - intros r Hr. apply Hk; [| left; reflexivity].
    apply (for_each_mkdir_dirs _ _ _ E r Hr).
Qed.

Lemma In_targets (q : path) (files : list (path * string)) :
  In q (flat_map (fun entry => [base :: fst entry]) files)
  <-> In q (targets base files).
Proof.
  unfold targets. rewrite in_flat_map, in_map_iff. split.
  - intros [e [He [<- | []]]]. exists e. auto.
  - intros [e [<- He]]. exists e. split; [exact He | left; reflexivity].
Qed.

Lemma files_loop_keeps (files : list (path * string)) (s s' : fs) :
  for_each (write_entry base) files s = inr s' -> keeps (targets base files) s s'.
Proof.
  intro H.
  apply (keeps_weaken (flat_map (fun entry => [base :: fst entry]) files)).
  - intros q Hq. apply In_targets, Hq.
  - apply (for_each_keeps (write_entry base) (fun entry => [base :: fst entry]));
      [| exact H].
    intros x s0 s1 Hx. apply (write_entry_inr x s0 s1 Hx).
Qed.

Lemma files_loop_post (files : list (path * string)) (s s' : fs) :
  for_each (write_entry base) files s = inr s' -> NoDup (map fst files) ->
  forall p c, In (p, c) files ->
    lookup s' (base :: p) = Some (File c) /\
    forall r, In r (prefixes (parent (base :: p))) -> lookup s' r = Some Dir.
Proof.
  revert s. induction files as [| [p0 c0] files IH]; intros s H Hnd p c Hin;
    [destruct Hin |].
  simpl in H. destruct ((write_entry base) (p0, c0) s) as [e | s1] eqn:E;
    [discriminate H |].
  simpl in H. inversion Hnd as [| ? ? Hnotin Hnd']; subst.
  destruct Hin as [Heq | Hin]; [| apply (IH s1 H Hnd' p c Hin)].
  injection Heq as -> ->.
  destruct (write_entry_inr (p, c) s s1 E) as [_ [Hf [_ Hdirs]]].
  pose proof (files_loop_keeps files s1 s' H) as Hk.
  split.
  - apply Hk; [exact Hf | right].
    unfold targets. rewrite in_map_iff. intros [e [He Hine]].
    injection He as He. apply Hnotin. rewrite <- He.
    apply in_map, Hine.
  - intros r Hr. apply Hk; [apply Hdirs, Hr | left; reflexivity].
Qed.

Lemma create_structure_in_steps (files : list (path * string)) (s s' : fs) :
  create_structure_in base folders files s = inr s' ->
  exists s1 s2,
    mkdir [base] s = inr s1 /\
    for_each mkdir (map (fun folder => [base; folder]) folders) s1 = inr s2 /\
    for_each (write_entry base) files s2 = inr s'.
Proof.
  unfold create_structure_in. intro H.
  destruct (mkdir [base] s) as [e | s1]; cbn [bind] in H;
    [discriminate H |].
  rewrite (for_each_map (fun folder => [base; folder]) mkdir) in H.
  destruct (for_each mkdir (map (fun folder => [base; folder]) folders) s1)
    as [e | s2] eqn:E2;
    change path with (list string) in E2; rewrite E2 in H;
    cbn [bind] in H; [discriminate H |].
  exists s1, s2. auto.
Qed.

(** X15: when [create_structure] returns, the project directory and every
    folder of [folders] are directories, and every entry of [files] is a
    file with exactly its text, below directories all the way up. *)
Theorem create_structure_in_post (files : list (path * string)) (s s' : fs) :
  create_structure_in base folders files s = inr s' ->
  NoDup (map fst files) ->
  lookup s' [base] = Some Dir /\
  (forall folder, In folder folders -> lookup s' [base; folder] = Some Dir) /\
  (forall p c, In (p, c) files ->
     lookup s' (base :: p) = Some (File c) /\
     lookup s' (parent (base :: p)) = Some Dir).
Proof.
  intros H Hnd.
  destruct (create_structure_in_steps files s s' H) as [s1 [s2 [H1 [H2 H3]]]].
  pose proof (for_each_mkdir_keeps _ _ _ H2) as K2.
  pose proof (files_loop_keeps files s2 s' H3) as K3.
  split; [| split].
  - apply K3; [| left; reflexivity]. apply K2; [| left; reflexivity].
    exact (proj1 (mkdir_inr _ _ _ H1)).
  - intros folder Hf. apply K3; [| left; reflexivity].
    apply (for_each_mkdir_dirs _ _ _ H2).
    apply in_map_iff. exists folder. auto.
  - intros p c Hin.
    destruct (files_loop_post files s2 s' H3 Hnd p c Hin) as [Hf Hdirs].
    split; [exact Hf |].
    remember (parent (base :: p)) as d eqn:Ed.
    destruct d as [| a r]; [reflexivity |].
    apply Hdirs. unfold prefixes. apply in_map_iff.
    exists (length (a :: r)). split; [apply firstn_all |].
    apply in_seq. simpl. lia.
Qed.

(** X16: [create_structure] destroys nothing: every directory that was
    there is still a directory, and every file keeps its text, except the
    files at the paths of [files], which it rewrites. *)
Theorem create_structure_in_keeps (files : list (path * string)) (s s' : fs) :
  create_structure_in base folders files s = inr s' ->
  keeps (targets base files) s s'.
Proof.
  intro H.
  destruct (create_structure_in_steps files s s' H) as [s1 [s2 [H1 [H2 H3]]]].
  apply (keeps_trans [] _ s s1 s'); [apply (mkdir_keeps _ _ _ H1) |].
  apply (keeps_trans [] _ s1 s2 s'); [apply (for_each_mkdir_keeps _ _ _ H2) |].
  apply (files_loop_keeps files s2 s' H3).
Qed.

(** X17: [create_structure] can be run again: on the tree it has built, a
    second run succeeds and leaves the tree exactly as it is. *)
Theorem create_structure_in_again (files : list (path * string)) (s s' : fs) :
  create_structure_in base folders files s = inr s' ->
  NoDup (map fst files) ->
  create_structure_in base folders files s' = inr s'.
Proof.
  intros H Hnd.
  destruct (create_structure_in_post files s s' H Hnd) as [Hb [Hf Hfiles]].
  destruct (create_structure_in_steps files s s' H) as [s1 [s2 [_ [_ H3]]]].
  unfold create_structure_in.
  rewrite mkdir_on_dir by exact Hb. simpl.
  rewrite for_each_fixed
    by (intros folder Hin; apply mkdir_on_dir, Hf, Hin).
  simpl. apply for_each_fixed. intros [p c] Hin.
  unfold write_entry. cbn [fst snd].
  destruct (files_loop_post files s2 s' H3 Hnd p c Hin) as [Hfile Hdirs].
  unfold mkdir_parents.
  rewrite for_each_fixed
    by (intros r Hr; apply mkdir_on_dir, Hdirs, Hr).
  cbn [bind]. apply write_text_again; [exact Hfile |].
  apply (Hfiles p c Hin).
Qed.

End CreateStructure.

(** ** Entries beside the project directory *)

Lemma find_app_fresh (base : string) (other : fs) (p : path) (s : fs) :
  fresh base other -> hd_error p = Some base ->
  find (other ++ s)%list p = find s p.
Proof.
  intros Hf Hp. induction Hf as [| [q n] o Hq Ho IH]; [reflexivity |].
  simpl. rewrite path_eqb_neq; [exact IH |].
  intros ->. apply Hq. exact Hp.
Qed.

Lemma set_app_fresh (base : string) (other : fs) (p : path) (n : node)
  (s : fs) :
  fresh base other -> hd_error p = Some base ->
  set p n (other ++ s)%list = (other ++ set p n s)%list.
Proof.
  intros Hf Hp. induction Hf as [| [q m] o Hq Ho IH]; [reflexivity |].
  simpl. rewrite path_eqb_neq; [rewrite IH; reflexivity |].
  intros ->. apply Hq. exact Hp.
Qed.

Section Beside.

Variable base : string.
Variable other : fs.
Hypothesis Hfresh : fresh base other.

Lemma find_beside (p : path) (s : fs) :
  hd_error p = Some base -> find (other ++ s)%list p = find s p.
Proof. apply find_app_fresh, Hfresh. Qed.

Lemma set_beside (p : path) (n : node) (s : fs) :
  hd_error p = Some base -> set p n (other ++ s)%list = (other ++ set p n s)%list.
Proof. apply set_app_fresh, Hfresh. Qed.

Lemma lookup_beside (p : path) (s : fs) :
  p = [] \/ hd_error p = Some base ->
  lookup (other ++ s)%list p = lookup s p.
Proof.
  intros [-> | Hp]; [reflexivity |].
  destruct p; [discriminate Hp |]. apply find_beside, Hp.
Qed.

Lemma hd_parent (p : path) :
  hd_error p = Some base ->
  parent p = [] \/ hd_error (parent p) = Some base.
Proof.
  destruct p as [| a [| b p']]; [discriminate | left; reflexivity |].
  intro H. right. exact H.
Qed.

Lemma mkdir_beside (p : path) (s : fs) :
  hd_error p = Some base ->
  mkdir p (other ++ s)%list = beside other (mkdir p s).
Proof.
  intro Hp. unfold mkdir.
  rewrite lookup_beside by (right; exact Hp).
  rewrite lookup_beside by (apply hd_parent, Hp).
  rewrite set_beside by exact Hp.
  destruct (lookup s p) as [[| c] |]; try reflexivity.
  destruct (lookup s (parent p)) as [[| c] |]; reflexivity.
Qed.

Lemma write_text_beside (p : path) (c : string) (s : fs) :
  hd_error p = Some base ->
  write_text p c (other ++ s)%list = beside other (write_text p c s).
Proof.
  intro Hp. unfold write_text.
  rewrite lookup_beside by (right; exact Hp).
  rewrite lookup_beside by (apply hd_parent, Hp).
  rewrite set_beside by exact Hp.
  destruct (lookup s p) as [[| c0] |];
    destruct (lookup s (parent p)) as [[| c1] |]; reflexivity.
Qed.

Lemma for_each_beside {A : Type} (body : A -> fs -> result fs) (l : list A) :
  (forall x s, In x l -> body x (other ++ s)%list = beside other (body x s)) ->
  forall s, for_each body l (other ++ s)%list = beside other (for_each body l s).
Proof.
  induction l as [| x l IH]; intros Hbody s; [reflexivity |].
  simpl. rewrite Hbody by (left; reflexivity).
  destruct (body x s) as [e | s1]; [reflexivity |].
  simpl. apply IH. intros y s0 Hy. apply Hbody. right. exact Hy.
Qed.

Lemma hd_prefixes (p r : path) :
  hd_error p = Some base -> In r (prefixes p) -> hd_error r = Some base.
Proof.
  intros Hp Hr. unfold prefixes in Hr. apply in_map_iff in Hr.
  destruct Hr as [k [<- Hk]]. apply in_seq in Hk.
  destruct p as [| a p']; [discriminate Hp |].
  destruct k as [| k']; [lia | exact Hp].
Qed.

Lemma mkdir_parents_beside (p : path) (s : fs) :
  p = [] \/ hd_error p = Some base ->
  mkdir_parents p (other ++ s)%list = beside other (mkdir_parents p s).
Proof.
  intros [-> | Hp]; [reflexivity |].
  unfold mkdir_parents. apply for_each_beside.
  intros r s0 Hr. apply mkdir_beside, (hd_prefixes p r Hp Hr).
Qed.

(** X18: [create_structure] only looks at the project directory and below:
    entries elsewhere in the working directory change neither whether it
    succeeds nor what it builds, and they are all still there afterwards. *)
Theorem create_structure_in_beside (folders : list string)
  (files : list (path * string)) (s : fs) :
  create_structure_in base folders files (other ++ s)%list
  = beside other (create_structure_in base folders files s).
Proof.
  unfold create_structure_in.
  rewrite mkdir_beside by reflexivity.
  destruct (mkdir [base] s) as [e | s1]; [reflexivity |].
  cbn [bind beside].
  rewrite for_each_beside
    by (intros folder s0 _; apply mkdir_beside; reflexivity).
  destruct (for_each (fun folder => mkdir [base; folder]) folders s1)
    as [e | s2]; [reflexivity |].
  cbn [bind beside]. apply for_each_beside.
  intros [p c] s0 _. unfold write_entry. cbn [fst snd].
  rewrite mkdir_parents_beside by (apply hd_parent; reflexivity).
  destruct (mkdir_parents (parent (base :: p)) s0) as [e | s3];
    [reflexivity |].
  cbn [bind beside]. apply write_text_beside. reflexivity.
Qed.

End Beside.

Lemma fresh_sample :
  fresh BASE_DIR [(["notes.txt"], File "keep"); (["other"], Dir)].
Proof. repeat constructor; discriminate. Qed.

Lemma create_structure_in_beside_witness :
  create_structure (fun _ => "text")
    ([(["notes.txt"], File "keep"); (["other"], Dir)] ++ [])%list
  = beside [(["notes.txt"], File "keep"); (["other"], Dir)]
      (create_structure (fun _ => "text") []).
Proof.
  exact (create_structure_in_beside BASE_DIR _ fresh_sample folders
           (files (fun _ => "text")) []).
Defined.

(** X19: in a working directory without the project directory,
    [create_structure] succeeds, for every text of the files, and adds
    exactly the project directory, the seven folders and the ten files to
    what was there. *)
Theorem create_structure_fresh (text : path -> string) (s : fs) :
  fresh BASE_DIR s ->
  create_structure text s = inr (s ++ project_tree text)%list.
Proof.
  intro Hs. rewrite <- (app_nil_r s) at 1. unfold create_structure.
  rewrite (create_structure_in_beside BASE_DIR s Hs). reflexivity.
Qed.

Lemma create_structure_fresh_witness :
  create_structure (fun _ => "text")
    [(["notes.txt"], File "keep"); (["other"], Dir)]
  = inr ([(["notes.txt"], File "keep"); (["other"], Dir)]
         ++ project_tree (fun _ => "text"))%list.
Proof. exact (create_structure_fresh (fun _ => "text") _ fresh_sample). Defined.

Lemma NoDup_file_names : NoDup file_names.
Proof.
  unfold file_names.
  repeat (constructor; [simpl; intuition discriminate |]). constructor.
Qed.

Lemma NoDup_files (text : path -> string) : NoDup (map fst (files text)).
Proof.
  exact NoDup_file_names.
Qed.

Lemma create_structure_in_post_witness :
  lookup (project_tree (fun _ => "text")) [BASE_DIR; "app"; "app.py"]
    = Some (File "text") /\
  lookup (project_tree (fun _ => "text")) [BASE_DIR; "prompts"] = Some Dir.
Proof.
  destruct (create_structure_in_post BASE_DIR folders
              (files (fun _ => "text")) [] (project_tree (fun _ => "text"))
              eq_refl (NoDup_files _)) as [_ [Hf Hfiles]].
  split.
  - apply (Hfiles ["app"; "app.py"] "text"). simpl. auto.
  - apply (Hf "prompts"). simpl. auto.
Defined.

Lemma create_structure_in_keeps_witness :
  lookup ([(["notes.txt"], File "keep"); (["other"], Dir)]
          ++ project_tree (fun _ => "text"))%list ["notes.txt"]
  = Some (File "keep").
Proof.
  apply (create_structure_in_keeps BASE_DIR folders (files (fun _ => "text"))
           [(["notes.txt"], File "keep"); (["other"], Dir)] _ eq_refl).
  - reflexivity.
  - right. simpl. intuition discriminate.
Defined.

Lemma create_structure_in_again_witness :
  create_structure (fun _ => "text") (project_tree (fun _ => "text"))
  = inr (project_tree (fun _ => "text")).
Proof.
  exact (create_structure_in_again BASE_DIR folders (files (fun _ => "text"))
           [] (project_tree (fun _ => "text")) eq_refl (NoDup_files _)).
Defined.

(** ** [zip_project] and [main] *)

Lemma find_In (s : fs) (p : path) (n : node) :
  find s p = Some n -> In (p, n) s.
Proof.
  induction s as [| [q m] s IH]; simpl; [discriminate |].
  destruct (path_eqb q p) eqn:E.
  - intro H. injection H as ->. apply path_eqb_eq in E. subst q.
    left. reflexivity.
  - intro H. right. apply IH, H.
Qed.


Lemma In_walk_files (base : string) (s : fs) (p : path) (c : string) :
  In (p, c) (walk_files base s)
  <-> In (p, File c) s /\ is_below base p = true.
Proof.
  induction s as [| [q [| c0]] s IH]; simpl.
  - tauto.
  - rewrite IH. split.
    + intros [H1 H2]. auto.
    + intros [[H | H] H2]; [discriminate H | auto].
  - destruct (is_below base q) eqn:E; simpl; rewrite IH; split.
    + intros [H | [H1 H2]]; [injection H as -> ->; auto | auto].
    + intros [[H | H] H2]; [injection H as -> ->; auto | auto].
    + intros [H1 H2]. auto.
    + intros [[H | H] H2]; [injection H as -> ->; congruence | auto].
Qed.



Lemma is_below_iff (base : string) (p : path) :
  is_below base p = true <-> hd_error p = Some base /\ (2 <= length p)%nat.
Proof.
  destruct p as [| a [| b p']]; simpl.
  - split; [discriminate | intros [H _]; discriminate H].
  - split; [discriminate | intros [_ H]; lia].
  - rewrite String.eqb_eq. split.
    + intros ->. split; [reflexivity | lia].
    + intros [H _]. injection H as ->. reflexivity.
Qed.

(** X20: [zip_project] raises exactly when the archive name is a
    directory.  Otherwise every archived entry is a file of the tree below
    the project directory, named by its path from the working directory,
    which starts with the project directory; and every such file is
    archived with its text.  Directories leave no entry of their own. *)
Theorem zip_project_in_entries (base zip_file : string) (s : fs) :
  (zip_project_in base zip_file s = inl OSError
     <-> lookup s [zip_file] = Some Dir) /\
  forall entries, zip_project_in base zip_file s = inr entries ->
    (forall p c, In (p, c) entries ->
       In (p, File c) s /\ hd_error p = Some base /\ (2 <= length p)%nat) /\
    (forall p c, find s p = Some (File c) ->
       hd_error p = Some base -> (2 <= length p)%nat -> In (p, c) entries).
Proof.
  unfold zip_project_in. split.
  - destruct (lookup s [zip_file]) as [[| c] |]; split;
      intro H; try reflexivity; discriminate H.
  - intros entries H.
    assert (He : entries = walk_files base s)
      by (destruct (lookup s [zip_file]) as [[| c] |]; congruence).
    subst entries. split.
    + intros p c Hin. apply In_walk_files in Hin. destruct Hin as [Hin Hb].
      apply is_below_iff in Hb. tauto.
    + intros p c Hf Hh Hl. apply In_walk_files. split.
      * apply find_In, Hf.
      * apply is_below_iff. auto.
Qed.

Lemma zip_project_in_entries_witness :
  In ([BASE_DIR; "app"; "app.py"], "text")
     (walk_files BASE_DIR (project_tree (fun _ => "text"))).
Proof.
  apply (proj2 (zip_project_in_entries BASE_DIR ZIP_FILE
                  (project_tree (fun _ => "text"))) _ eq_refl).
  - reflexivity.
  - reflexivity.
  - simpl. lia.
Defined.



Lemma file_names_in_project :
  Forall (fun name => outside_venv (BASE_DIR :: name) /\
                      (2 <= length (BASE_DIR :: name))%nat) file_names.
Proof.
  unfold file_names, outside_venv.
  repeat (constructor; [split; [discriminate | simpl; lia] |]). constructor.
Qed.

(** X22: whatever the two child processes do inside [VENV_DIR], as long as
    they leave the files outside it alone: when [main] returns, the
    archive holds every file of [files] with its text, under its path from
    the project directory down. *)
Theorem main_archives_files (sys_executable os_name : string)
  (run : list arg -> fs -> result fs) (text : path -> string) (s : fs)
  (entries : list (path * string)) :
  stays_in_venv run ->
  main sys_executable os_name run text s = inr entries ->
  forall name, In name file_names ->
               In (BASE_DIR :: name, text name) entries.
Proof.
  intros Hrun Hmain name Hname. unfold main in Hmain.
  destruct (create_structure text s) as [e | s1] eqn:E1;
    cbn [bind] in Hmain; [discriminate Hmain |].
  destruct (create_venv sys_executable run s1) as [e | s2] eqn:E2;
    cbn [bind] in Hmain; [discriminate Hmain |].
  destruct (install_dependencies os_name run s2) as [e | s3] eqn:E3;
    cbn [bind] in Hmain; [discriminate Hmain |].
  pose proof file_names_in_project as Hall.
  rewrite Forall_forall in Hall. destruct (Hall name Hname) as [Hout Hlen].
  destruct (create_structure_in_post BASE_DIR folders (files text) s s1 E1
              (NoDup_files text)) as [_ [_ Hfiles]].
  assert (H1 : lookup s1 (BASE_DIR :: name) = Some (File (text name))).
  { apply Hfiles. unfold files. apply in_map_iff. exists name. auto. }
  assert (H3 : lookup s3 (BASE_DIR :: name) = Some (File (text name))).
  { apply (Hrun _ s2 s3 _ _ E3 Hout). apply (Hrun _ s1 s2 _ _ E2 Hout H1). }
  apply (proj2 (zip_project_in_entries BASE_DIR ZIP_FILE s3) entries Hmain).
  - exact H3.
  - reflexivity.
  - exact Hlen.
Qed.

Lemma venv_only_run_stays : stays_in_venv venv_only_run.
Proof.
  intros args s s' q c Hrun Hout Hq. unfold venv_only_run in Hrun.
  destruct (mkdir_parents VENV_DIR s) as [e | s1] eqn:E;
    cbn [bind] in Hrun; [discriminate Hrun |].
  apply (write_text_keeps _ _ _ _ Hrun).
  - apply (for_each_mkdir_keeps _ _ _ E); [exact Hq | right; intros []].
  - right. intros [<- | []]. apply Hout. reflexivity.
Qed.

Lemma main_archives_files_witness :
  In ([BASE_DIR; "README.txt"], "text")
     (match main "python3" "posix" venv_only_run (fun _ => "text") [] with
      | inr entries => entries
      | inl _ => []
      end).
Proof.
  apply (main_archives_files "python3" "posix" venv_only_run
           (fun _ => "text") [] _ venv_only_run_stays eq_refl
           ["README.txt"]).
  simpl. auto.
Defined.

(** ** Well-formed trees *)

Lemma mkdir_well_formed (p : path) (s s' : fs) :
  well_formed s -> mkdir p s = inr s' -> well_formed s'.
Proof.
  intros Hwf H q n Hq.
  destruct (mkdir_inr p s s' H) as [Hp [Hkeep Hother]].
  assert (Hpar : lookup s (parent p) = Some Dir).
  { unfold mkdir in H.
    destruct (lookup s p) as [[| c] |] eqn:Ep; try discriminate H.
    - apply (Hwf p Dir Ep).
    - destruct (lookup s (parent p)) as [[| c] |]; try discriminate H.
      reflexivity. }
  destruct (path_eqb q p) eqn:E.
  - apply path_eqb_eq in E. subst q. apply Hkeep, Hpar.
  - assert (Hne : q <> p) by (intros ->; rewrite path_eqb_refl in E;
                              discriminate E).
    rewrite Hother in Hq by exact Hne. apply Hkeep, (Hwf q n Hq).
Qed.

Lemma write_text_well_formed (p : path) (c : string) (s s' : fs) :
  well_formed s -> write_text p c s = inr s' -> well_formed s'.
Proof.
  intros Hwf H q n Hq.
  destruct (write_text_inr p c s s' H) as [_ [_ [Hpar Hother]]].
  destruct (path_eqb q p) eqn:E.
  - apply path_eqb_eq in E. subst q. exact Hpar.
  - assert (Hne : q <> p) by (intros ->; rewrite path_eqb_refl in E;
                              discriminate E).
    rewrite Hother in Hq by exact Hne.
    apply (write_text_keeps p c s s' H); [| left; reflexivity].
    apply (Hwf q n Hq).
Qed.

Lemma for_each_well_formed {A : Type} (body : A -> fs -> result fs)
  (l : list A) :
  (forall x s s', well_formed s -> body x s = inr s' -> well_formed s') ->
  forall s s', well_formed s -> for_each body l s = inr s' -> well_formed s'.
Proof.
  intro Hbody. induction l as [| x l IH]; intros s s' Hwf H; simpl in H.
  - injection H as <-. exact Hwf.
  - destruct (body x s) as [e | s1] eqn:E; cbn [bind] in H;
      [discriminate H |].
    apply (IH s1 s' (Hbody x s s1 Hwf E) H).
Qed.

Lemma write_entry_well_formed (base : string) (entry : path * string)
  (s s' : fs) :
  well_formed s -> write_entry base entry s = inr s' -> well_formed s'.
Proof.
  unfold write_entry. cbv zeta. intros Hwf H.
  destruct (mkdir_parents (parent (base :: fst entry)) s) as [e | s1] eqn:E;
    cbn [bind] in H; [discriminate H |].
  apply (write_text_well_formed (base :: fst entry) (snd entry) s1 s');
    [| exact H].
  apply (for_each_well_formed mkdir _ mkdir_well_formed s s1 Hwf E).
Qed.

(** X23: [create_structure] keeps the tree well formed: if every entry lies
    in a directory before the run, the same holds after it. *)
Theorem create_structure_in_well_formed (base : string)
  (folders : list string) (files : list (path * string)) (s s' : fs) :
  well_formed s ->
  create_structure_in base folders files s = inr s' ->
  well_formed s'.
Proof.
  intros Hwf H. unfold create_structure_in in H.
  destruct (mkdir [base] s) as [e | s1] eqn:E1; cbn [bind] in H;
    [discriminate H |].
  destruct (for_each (fun folder => mkdir [base; folder]) folders s1)
    as [e | s2] eqn:E2; cbn [bind] in H; [discriminate H |].
  apply (for_each_well_formed (write_entry base) files
           (write_entry_well_formed base) s2 s'); [| exact H].
  apply (for_each_well_formed (fun folder => mkdir [base; folder]) folders
           (fun folder => mkdir_well_formed [base; folder]) s1 s2);
    [| exact E2].
  apply (mkdir_well_formed [base] s s1 Hwf E1).
Qed.

Lemma well_formed_nil : well_formed [].
Proof. intros [| a p] n H; [reflexivity | discriminate H]. Qed.

Lemma create_structure_in_well_formed_witness :
  well_formed (project_tree (fun _ => "text")).
Proof.
  exact (create_structure_in_well_formed BASE_DIR folders
           (files (fun _ => "text")) [] _ well_formed_nil eq_refl).
Defined.

(** ** What stops [create_structure] *)

Lemma not_inr_raises (r : result fs) :
  (forall s', r <> inr s') -> r = inl OSError.
Proof.
  intro H. destruct r as [[] | s']; [reflexivity |].
  exfalso. apply (H s'). reflexivity.
Qed.

(** X24: [create_structure] raises when something is in the way: a file
    where the project directory or one of the folders should be, or a
    directory where one of the files should be written. *)
Theorem create_structure_in_raises (base : string) (folders : list string)
  (files : list (path * string)) (s : fs) :
  NoDup (map fst files) ->
  (exists c, lookup s [base] = Some (File c)) \/
  (exists folder c,
     In folder folders /\ lookup s [base; folder] = Some (File c)) \/
  (exists p c, In (p, c) files /\ lookup s (base :: p) = Some Dir) ->
  create_structure_in base folders files s = inl OSError.
Proof.
  intros Hnd Hway. apply not_inr_raises. intros s' H.
  destruct (create_structure_in_steps base folders files s s' H)
    as [s1 [s2 [H1 [H2 H3]]]].
  destruct Hway as [[c Hc] | [[folder [c [Hin Hc]]] | [p [c [Hin Hd]]]]].
  - unfold mkdir in H1. rewrite Hc in H1. discriminate H1.
  - assert (Hdir : lookup s2 [base; folder] = Some Dir).
    { apply (for_each_mkdir_dirs _ _ _ H2).
      apply in_map_iff. exists folder. auto. }
    assert (Hfile : lookup s2 [base; folder] = Some (File c)).
    { apply (for_each_mkdir_keeps _ _ _ H2); [| right; intros []].
      apply (mkdir_keeps _ _ _ H1); [exact Hc | right; intros []]. }
    congruence.
  - destruct (create_structure_in_post base folders files s s' H Hnd)
      as [_ [_ Hfiles]].
    destruct (Hfiles p c Hin) as [Hfile _].
    assert (Hdir : lookup s' (base :: p) = Some Dir)
      by (apply (create_structure_in_keeps base folders files s s' H);
          [exact Hd | left; reflexivity]).
    congruence.
Qed.

Lemma create_structure_in_raises_witness :
  create_structure (fun _ => "text") [([BASE_DIR], File "taken")]
  = inl OSError.
Proof.
  apply (create_structure_in_raises BASE_DIR folders
           (files (fun _ => "text")) [([BASE_DIR], File "taken")]
           (NoDup_files _)).
  left. exists "taken". reflexivity.
Defined.

End BuildFacts.
